(** * lx monorepo build helper: shallow embedding and verified properties

    The development embeds three parts of the repository:
    - [build.config.ts]  (the built-in [BuildConfig] and its [external] predicate),
    - [build-packages.ts] (config loading, entry resolution, externals,
      per-format bundler invocation, the driver),
    - [packages/utils/src/clone.ts] ([deepClone]).

    JavaScript strings are modelled by [string]; every delimiter the script
    inspects ('/', '@', '.') is ASCII, so working on bytes agrees with
    working on UTF-16 code units. *)

From Stdlib Require Import Ascii String.
From stdpp Require Import gmap strings list.

Local Open Scope string_scope.
Local Open Scope list_scope.

(** ** JavaScript string primitives used by the script *)

Module Js.

(** [s.startsWith(p)] *)
Definition startsWith (s p : string) : bool := String.prefix p s.

(** [s.endsWith(p)] *)
Definition endsWith (s p : string) : bool :=
String.prefix (String.rev p) (String.rev s).

(** [s.includes(c)] for a one-character needle. *)
Fixpoint includes_char (s : string) (c : ascii) : bool :=
match s with
| EmptyString => false
| String a r => if Ascii.eqb a c then true else includes_char r c
end.

(** [s.includes(t)] *)
Fixpoint includes (s t : string) : bool :=
if String.prefix t s then true
else match s with
     | EmptyString => false
     | String _ r => includes r t
     end.

(** [s.split(c)] for a one-character separator: never the empty array. *)
Fixpoint split (s : string) (c : ascii) : list string :=
match s with
| EmptyString => [EmptyString]
| String a r =>
    if Ascii.eqb a c then EmptyString :: split r c
    else match split r c with
         | [] => [String a EmptyString]
         | seg :: segs => String a seg :: segs
         end
end.

(** [arr.pop()]: the last element, [undefined] on the empty array. *)
Definition pop (l : list string) : option string := last l.

(** [s.replace(c, r)] with a string pattern: only the first occurrence. *)
Fixpoint replace (s : string) (c : ascii) (r : string) : string :=
match s with
| EmptyString => EmptyString
| String a t => if Ascii.eqb a c then r +:+ t else String a (replace t c r)
end.

(** [arr.join(sep)] *)
Definition join (l : list string) (sep : string) : string := String.concat sep l.

(** Truthiness of a [string | undefined] value. *)
Definition truthy (o : option string) : bool :=
match o with
| None => false
| Some EmptyString => false
| Some _ => true
end.

(** [a || b] on [string | undefined] with a string fallback. *)
Definition or_else (o : option string) (d : string) : string :=
match o with
| Some (String a r) => String a r
| _ => d
end.

End Js.

(** ** build.config.ts *)

(** A JS object used as a string-keyed record of opaque option values. *)
Definition Obj := list (string * string).

(** The parts of vite's [UserConfig] the script looks into:
    [vite.build], [vite.build.rollupOptions], [...rollupOptions.output]. *)
Record UserOutput := {
  uo_globals : option Obj;
  uo_other : Obj
}.

Record UserRollup := {
  ur_other : Obj;
  ur_output : option UserOutput
}.

Record ViteBuild := {
  vb_other : Obj;              (* minify, sourcemap, reportCompressedSize, ... *)
  vb_rollupOptions : option UserRollup
}.

Record UserConfig := {
  uc_build : option ViteBuild
}.

Record BuildConfig := {
  formats : list string;
  outRoot : string;
  entryFiles : list string;
  globals : Obj;
  external : option (string → bool);
  vite : option UserConfig;
  vue : option Obj
}.

(** The [external] arrow function of the default configuration. *)
Definition config_external (depName : string) : bool :=
  if String.eqb depName "vue" then true
  else negb (Js.startsWith depName "@lx/").

(** The default export of build.config.ts. *)
Definition config : BuildConfig := {|
  formats := ["es"; "cjs"; "umd"];
  outRoot := "dist";
  entryFiles := ["index.ts"; "src/index.ts"; "src/index.tsx"];
  globals := [("vue", "Vue"); ("@vueuse/core", "VueUse")];
  external := Some config_external;
  vite := Some {| uc_build :=
            Some {| vb_other := [("minify", "esbuild"); ("sourcemap", "true");
                                 ("reportCompressedSize", "false")];
                    vb_rollupOptions := None |} |};
  vue := Some [("isProduction", "true")]
|}.

(** ** build-packages.ts: data *)

(** The CLI options record [Opts]. *)
Record Opts := {
  o_pkg : option string;
  o_component : option string;
  o_formats : option (list string);
  o_outRoot : option string;
  o_config : option string
}.

(** The fields of a parsed package.json that the script reads.  The two
    dependency objects are kept as their key/value entries in
    [Object.keys] order. *)
Record PkgJson := {
  pj_name : option string;
  pj_module : option string;
  pj_main : option string;
  pj_dependencies : option (list (string * string));
  pj_peerDependencies : option (list (string * string))
}.

(** [Object.keys] of an optional dependency object guarded by [if (obj)]. *)
Definition keys_if_present (o : option (list (string * string))) : list string :=
  match o with
  | Some kvs => kvs.*1
  | None => []
  end.

(** A JS [Set<string>] in insertion order. *)
Definition set_add (s : list string) (d : string) : list string :=
  if bool_decide (d ∈ s) then s else s ++ [d].

(** [config.external?.(d)] as a condition: [undefined] is falsy. *)
Definition externalOf (cfg : BuildConfig) (d : string) : bool :=
  match external cfg with
  | Some f => f d
  | None => false
  end.

(** Lines 95-99 of build-packages.ts: [Array.from(externals)]. *)
Definition collectExternals (pkgJson : PkgJson) (cfg : BuildConfig) : list string :=
  let externals := [] in
  let externals := foldl set_add externals (keys_if_present (pj_peerDependencies pkgJson)) in
  foldl (λ s d, if externalOf cfg d then set_add s d else s)
        externals (keys_if_present (pj_dependencies pkgJson)).

(** [shortName] of line 62.  [split] never yields the empty array, so the
    non-null assertion on [pop()] is never exercised. *)
Definition shortName (pkgName : string) : string :=
  if Js.includes_char pkgName "/"
  then default pkgName (Js.pop (Js.split pkgName "/"))
  else pkgName.

(** The directory name used under the output root (line 65). *)
Definition outDirName (sn : string) : string :=
  Js.replace (Js.replace sn "@" EmptyString) "/" "-".

(** ** build-packages.ts: effects

    The script talks to the file system, the module loader, the console and
    the bundler.  These collaborators are a parameter of the embedding; the
    script's own control flow is written in a small monad that threads the
    state of the world, records every interaction in a trace, and
    distinguishes a thrown error from [process.exit]. *)

Record JsError := MkError { message : string }.

Record LibOptions := {
  lib_entry : string;
  lib_name : string;
  lib_formats : list string;
  lib_fileName : string → string
}.

Record RollupOutput := {
  out_globals : Obj;
  out_other : Obj
}.

Record RollupOptions := {
  ro_other : Obj;
  ro_external : list string;
  ro_output : RollupOutput
}.

Record BuildOptions := {
  bo_other : Obj;
  bo_lib : LibOptions;
  bo_rollupOptions : RollupOptions;
  bo_outDir : string
}.

Record InlineConfig := {
  ic_configFile : option string;
  ic_root : string;
  ic_vue : option Obj;          (* plugins: [vue.default(config.vue)] *)
  ic_build : BuildOptions
}.

(** The default export of a user configuration module: any subset of the
    [BuildConfig] keys; an optional key may be present and [undefined]. *)
Record PartialConfig := {
  p_formats : option (list string);
  p_outRoot : option string;
  p_entryFiles : option (list string);
  p_globals : option Obj;
  p_external : option (option (string → bool));
  p_vite : option (option UserConfig);
  p_vue : option (option Obj)
}.

Inductive Event :=
| EvExists (p : string)                 (* fs.existsSync(p) *)
| EvReaddir (p : string)                (* fs.readdirSync(p, ...) *)
| EvReadFile (p : string)               (* fs.readFileSync(p, 'utf8') *)
| EvImport (p : string)                 (* await import(p) *)
| EvLog (args : list string)            (* console.log('[build-packages-ts]', ...args) *)
| EvConsoleError (args : list string)   (* console.error(...args) *)
| EvBuild (c : InlineConfig).           (* await vite.build(c) *)

(** Node's [path], [fs], [process], dynamic [import] and [vite.build]. *)
Class Env (World : Type) := {
  process_cwd : string;
  path_isAbsolute : string → bool;
  path_join : list string → string;
  path_resolve : list string → string;
  path_basename : string → string;
  fs_existsSync : World → string → bool;
  fs_readdirSync : World → string → JsError + list string;
  (* withFileTypes: name and isDirectory() of each entry *)
  fs_readdirTypes : World → string → JsError + list (string * bool);
  (* JSON.parse(fs.readFileSync(p, 'utf8')) *)
  read_json : World → string → JsError + PkgJson;
  (* await import(p), then [.default] *)
  import_default : World → string → (JsError + option PartialConfig) * World;
  vite_build : World → InlineConfig → option JsError * World;
  (* fs.existsSync('') is false: the empty path names nothing *)
  fs_existsSync_empty : ∀ w, fs_existsSync w EmptyString = false
}.

Inductive Res (A : Type) :=
| Ok (a : A)
| Throw (e : JsError)
| Exit (code : Z).
Arguments Ok {A} a.
Arguments Throw {A} e.
Arguments Exit {A} code.

Record Out (World A : Type) := MkOut {
  res : Res A;
  world_after : World;
  trace : list Event
}.
Arguments MkOut {World A} res world_after trace.
Arguments res {World A} o.
Arguments world_after {World A} o.
Arguments trace {World A} o.

Definition M (World A : Type) : Type := World → Out World A.

Section Monad.
Context {World : Type}.

Definition ret {A} (a : A) : M World A := λ w, MkOut (Ok a) w [].

Definition throw {A} (e : JsError) : M World A := λ w, MkOut (Throw e) w [].

(** [process.exit(code)] *)
Definition exit {A} (code : Z) : M World A := λ w, MkOut (Exit code) w [].

Definition bind {A B} (m : M World A) (k : A → M World B) : M World B :=
  λ w,
    let o := m w in
    match res o with
    | Ok a =>
        let o' := k a (world_after o) in
        MkOut (res o') (world_after o') (trace o ++ trace o')
    | Throw e => MkOut (Throw e) (world_after o) (trace o)
    | Exit c => MkOut (Exit c) (world_after o) (trace o)
    end.

(** [try { m } catch (err) { h err }]; [process.exit] is not catchable. *)
Definition try_catch {A} (m : M World A) (h : JsError → M World A) : M World A :=
  λ w,
    let o := m w in
    match res o with
    | Throw e =>
        let o' := h e (world_after o) in
        MkOut (res o') (world_after o') (trace o ++ trace o')
    | _ => o
    end.

Definition emit (e : Event) : M World unit := λ w, MkOut (Ok tt) w [e].
End Monad.

Notation "'let*' x ':=' m 'in' k" := (bind m (λ x, k))
  (at level 10, x pattern, m at level 100, k at level 200).
Notation "m ';;' k" := (bind m (λ _, k))
  (at level 100, k at level 200, right associativity).

(** The double quote character, for the error message of [buildPackage]. *)
Definition dquote : string := String (ascii_of_nat 34) EmptyString.

(** [/^index\.(ts|js|mjs|cjs|tsx)$/.test(f)] *)
Definition index_re_test (f : string) : bool :=
  if Js.startsWith f "index."
  then bool_decide (String.substring 6 (String.length f - 6) f
                      ∈ ["ts"; "js"; "mjs"; "cjs"; "tsx"])
  else false.

(** The shallow merge [{ ...defaultConfig, ...userConfig.default }]. *)
Definition mergeConfig (d : BuildConfig) (u : option PartialConfig) : BuildConfig :=
  match u with
  | None => d
  | Some u => {|
      formats := default (formats d) (p_formats u);
      outRoot := default (outRoot d) (p_outRoot u);
      entryFiles := default (entryFiles d) (p_entryFiles u);
      globals := default (globals d) (p_globals u);
      external := default (external d) (p_external u);
      vite := default (vite d) (p_vite u);
      vue := default (vue d) (p_vue u)
    |}
  end.

Section BuildPackages.
Context {World : Type} `{!Env World}.

Local Abbreviation M := (M World).

(** *** Primitive interactions *)

Definition existsSync (p : string) : M bool :=
  λ w, MkOut (Ok (fs_existsSync w p)) w [EvExists p].

Definition readdirSync (p : string) : M (list string) :=
  λ w, match fs_readdirSync w p with
       | inl e => MkOut (Throw e) w [EvReaddir p]
       | inr fs => MkOut (Ok fs) w [EvReaddir p]
       end.

Definition readdirTypes (p : string) : M (list (string * bool)) :=
  λ w, match fs_readdirTypes w p with
       | inl e => MkOut (Throw e) w [EvReaddir p]
       | inr fs => MkOut (Ok fs) w [EvReaddir p]
       end.

Definition readPackageJson (p : string) : M PkgJson :=
  λ w, match read_json w p with
       | inl e => MkOut (Throw e) w [EvReadFile p]
       | inr pj => MkOut (Ok pj) w [EvReadFile p]
       end.

Definition importDefault (p : string) : M (option PartialConfig) :=
  λ w, match import_default w p with
       | (inl e, w') => MkOut (Throw e) w' [EvImport p]
       | (inr u, w') => MkOut (Ok u) w' [EvImport p]
       end.

Definition build (c : InlineConfig) : M unit :=
  λ w, match vite_build w c with
       | (Some e, w') => MkOut (Throw e) w' [EvBuild c]
       | (None, w') => MkOut (Ok tt) w' [EvBuild c]
       end.

Definition log (args : list string) : M unit := emit (EvLog args).

Definition console_error (args : list string) : M unit := emit (EvConsoleError args).

(** *** loadConfig *)

Definition loadConfig (configPath : option string) : M BuildConfig :=
  match configPath with
  | None => ret config
  | Some EmptyString => ret config
  | Some configPath =>
      let absPath :=
        if path_isAbsolute configPath then configPath
        else path_resolve [process_cwd; configPath] in
      let* present := existsSync absPath in
      if negb present
      then throw (MkError ("Config file not found: " +:+ absPath))
      else
        try_catch
          (let* userDefault := importDefault absPath in
           ret (mergeConfig config userDefault))
          (λ err,
             console_error ["Failed to load config:"; message err];;
             ret config)
  end.

(** *** buildPackage *)

(** [pkgJson.name || path.basename(pkgDir)] *)
Definition packageName (pkgDir : string) (pkgJson : PkgJson) : string :=
  Js.or_else (pj_name pkgJson) (path_basename pkgDir).

(** [path.isAbsolute(cand) ? cand : path.join(pkgDir, cand)] *)
Definition candidatePath (pkgDir cand : string) : string :=
  if path_isAbsolute cand then cand else path_join [pkgDir; cand].

(** The loop of lines 75-79 over [tryEntryCandidates]. *)
Fixpoint tryCandidates (pkgDir : string) (cands : list (option string))
  : M (option string) :=
  match cands with
  | [] => ret None
  | cand :: rest =>
      match cand with
      | Some (String _ _ as c) =>
          let p := candidatePath pkgDir c in
          let* present := existsSync p in
          if present then ret (Some p) else tryCandidates pkgDir rest
      | _ => tryCandidates pkgDir rest
      end
  end.

(** Lines 68-90: the entry of a package, or the entry-not-found error. *)
Definition resolveEntry (pkgDir : string) (pkgJson : PkgJson) (pkgName : string)
           (cfg : BuildConfig) : M string :=
  let tryEntryCandidates :=
    pj_module pkgJson :: pj_main pkgJson :: (Some <$> entryFiles cfg) in
  let* entry := tryCandidates pkgDir tryEntryCandidates in
  let* entry :=
    (if Js.truthy entry then ret entry
     else
       let* files := readdirSync pkgDir in
       match List.find index_re_test files with
       | Some idx => ret (Some (path_join [pkgDir; idx]))
       | None => ret entry
       end) in
  match entry with
  | Some (String _ _ as e) => ret e
  | _ =>
      throw (MkError ("Cannot find entry for package " +:+ pkgName +:+ " in "
                      +:+ pkgDir +:+ ". Please set " +:+ dquote +:+ "main"
                      +:+ dquote +:+ " or " +:+ dquote +:+ "module" +:+ dquote
                      +:+ " in package.json or add one of: "
                      +:+ Js.join (entryFiles cfg) ", "))
  end.

(** The object literal of lines 109-135 for one format. *)
Definition viteOptions (pkgDir entry sn outDir : string) (externals : list string)
           (configFilePath : option string) (cfg : BuildConfig) (format : string)
  : InlineConfig :=
  let userBuild := vite cfg ≫= uc_build in
  let userRollup := userBuild ≫= vb_rollupOptions in
  let userOutput := userRollup ≫= ur_output in
  {| ic_configFile := configFilePath;
     ic_root := pkgDir;
     ic_vue := vue cfg;
     ic_build := {|
       bo_other := from_option vb_other [] userBuild;
       bo_lib := {| lib_entry := entry;
                    lib_name := sn;
                    lib_formats := [format];
                    lib_fileName := λ f, sn +:+ "." +:+ f +:+ ".js" |};
       bo_rollupOptions := {|
         ro_other := from_option ur_other [] userRollup;
         ro_external := externals;
         ro_output := {|
           out_globals := default (globals cfg) (userOutput ≫= uo_globals);
           out_other := from_option uo_other [] userOutput |} |};
       bo_outDir := outDir |} |}.

(** The template string logged on line 137. *)
Definition buildLine (format : string) (configFilePath : option string) : string :=
  "vite.build -> format=" +:+ format +:+ " (configFile="
  +:+ (if Js.truthy configFilePath then "yes" else "no") +:+ ")".

(** The [for (const format of formats)] loop of lines 107-139. *)
Fixpoint buildFormats (mk : string → InlineConfig) (fmts : list string) : M unit :=
  match fmts with
  | [] => ret tt
  | format :: rest =>
      let c := mk format in
      log [buildLine format (ic_configFile c)];;
      build c;;
      buildFormats mk rest
  end.

Definition buildPackage (pkgDir : string) (pkgJson : PkgJson) (opts : Opts)
           (cfg : BuildConfig) : M unit :=
  let pkgName := packageName pkgDir pkgJson in
  let sn := shortName pkgName in
  let fmts := default (formats cfg) (o_formats opts) in
  let outRoot := Js.or_else (o_outRoot opts) (path_resolve [process_cwd; outRoot cfg]) in
  let outDir := path_join [outRoot; outDirName sn] in
  let* entry := resolveEntry pkgDir pkgJson pkgName cfg in
  log ["Building"; pkgName; "entry="; entry; "formats="; Js.join fmts ",";
       "outDir="; outDir];;
  let externals := collectExternals pkgJson cfg in
  let* hasViteConfig := existsSync (path_join [pkgDir; "vite.config.ts"]) in
  let configFilePath :=
    if hasViteConfig then Some (path_join [pkgDir; "vite.config.ts"]) else None in
  try_catch
    (buildFormats (viteOptions pkgDir entry sn outDir externals configFilePath cfg) fmts)
    (λ err, log ["Build failed for"; pkgName];; throw err).

(** *** buildSingleComponent *)

(** Lines 147-162: the entry checks made before the component is built. *)
Definition componentEntry (componentsDir componentName : string) : M string :=
  let compDir := path_join [componentsDir; componentName] in
  let* present := existsSync compDir in
  if negb present
  then throw (MkError ("component " +:+ componentName +:+ " not found in "
                       +:+ componentsDir))
  else
    let entry := path_join [compDir; "index.ts"] in
    let* present := existsSync entry in
    let* entry :=
      (if negb present
       then
         let* files := readdirSync compDir in
         match List.find (λ f, Js.endsWith f ".vue") files with
         | Some vueFile => ret (path_join [compDir; "src"; vueFile])
         | None => ret entry
         end
       else ret entry) in
    let* present := existsSync entry in
    let* entry :=
      (if negb present
       then
         let alt := path_join [compDir; "src"; "index.ts"] in
         let* altPresent := existsSync alt in
         if altPresent then ret alt else ret entry
       else ret entry) in
    let* present := existsSync entry in
    if negb present
    then throw (MkError ("Cannot find entry for component " +:+ componentName
                         +:+ " in " +:+ compDir))
    else ret entry.

Definition buildSingleComponent (componentsDir componentName : string)
           (opts : Opts) (cfg : BuildConfig) : M unit :=
  componentEntry componentsDir componentName;;
  let tmpPkgJson := {| pj_name := Some ("@lx/" +:+ componentName);
                       pj_module := None; pj_main := None;
                       pj_dependencies := None; pj_peerDependencies := None |} in
  let tmpPkgDir := path_join [componentsDir; componentName] in
  buildPackage tmpPkgDir tmpPkgJson opts cfg.

(** *** main, after [parseArgs] *)

(** [pkgDirs.filter(dir => fs.existsSync(path.join(dir, 'package.json')))] *)
Fixpoint filterManifest (dirs : list string) : M (list string) :=
  match dirs with
  | [] => ret []
  | dir :: rest =>
      let* present := existsSync (path_join [dir; "package.json"]) in
      let* rest' := filterManifest rest in
      ret (if present then dir :: rest' else rest')
  end.

(** Lines 191-195: the package directories, in directory-listing order. *)
Definition discover (packagesDir : string) : M (list string) :=
  let* entries := readdirTypes packagesDir in
  filterManifest ((λ d, path_join [packagesDir; d.1]) <$> List.filter snd entries).

(** [pkgDirs.find(d => pj.name === opts.pkg || path.basename(d) === opts.pkg)] *)
Fixpoint findTarget (pkg : string) (dirs : list string) : M (option string) :=
  match dirs with
  | [] => ret None
  | d :: rest =>
      let* pj := readPackageJson (path_join [d; "package.json"]) in
      if bool_decide (pj_name pj = Some pkg) || bool_decide (path_basename d = pkg)
      then ret (Some d)
      else findTarget pkg rest
  end.

(** The body of the loop of lines 210-213. *)
Definition buildOne (dir : string) (opts : Opts) (cfg : BuildConfig) : M unit :=
  let* pj := readPackageJson (path_join [dir; "package.json"]) in
  buildPackage dir pj opts cfg.

(** The loop of lines 210-213. *)
Fixpoint buildAll (dirs : list string) (opts : Opts) (cfg : BuildConfig) : M unit :=
  match dirs with
  | [] => ret tt
  | dir :: rest =>
      buildOne dir opts cfg;;
      buildAll rest opts cfg
  end.

Definition main (opts : Opts) : M unit :=
  let* cfg := loadConfig (o_config opts) in
  let root := path_resolve [process_cwd] in
  let packagesDir := path_join [root; "packages"] in
  let* present := existsSync packagesDir in
  (if negb present
   then console_error ["packages directory not found:"; packagesDir];; exit 1%Z
   else ret tt);;
  match o_component opts with
  | Some (String _ _ as component) =>
      let componentsDir := path_join [packagesDir; "components"] in
      let* present := existsSync componentsDir in
      if negb present then throw (MkError "components package not found")
      else
        buildSingleComponent componentsDir component opts cfg;;
        log ["Single component build complete"]
  | _ =>
      let* pkgDirs := discover packagesDir in
      match o_pkg opts with
      | Some (String _ _ as pkg) =>
          let* target := findTarget pkg pkgDirs in
          match target with
          | Some (String _ _ as target) =>
              let* pj := readPackageJson (path_join [target; "package.json"]) in
              buildPackage target pj opts cfg;;
              log ["Package build complete for"; pkg]
          | _ => throw (MkError ("package " +:+ pkg +:+ " not found"))
          end
      | _ =>
          buildAll pkgDirs opts cfg;;
          log ["All packages built"]
      end
  end.

(** [main().catch(err => { console.error(err); process.exit(1) })]: the
    exit status of the process. *)
Definition run (opts : Opts) : World → Out World Z :=
  λ w,
    let o := main opts w in
    match res o with
    | Ok _ => MkOut (Ok 0%Z) (world_after o) (trace o)
    | Throw e =>
        MkOut (Ok 1%Z) (world_after o) (trace o ++ [EvConsoleError [message e]])
    | Exit c => MkOut (Ok c) (world_after o) (trace o)
    end.
End BuildPackages.

(** ** A concrete environment

    A small POSIX-like world used to run the script on explicit inputs:
    paths are kept as written (the inputs below are already normalised),
    the bundler rejects the formats listed in [bad_formats] with the error
    [boom] and otherwise writes its artifact under the output directory. *)

Module Fixture.

Record world := {
  paths : list string;
  listings : list (string * list (string * bool));
  manifests : list (string * PkgJson);
  modules : list (string * (JsError + option PartialConfig));
  bad_formats : list string
}.

Fixpoint assoc {A} (k : string) (l : list (string * A)) : option A :=
  match l with
  | [] => None
  | (k', v) :: r => if String.eqb k k' then Some v else assoc k r
  end.

Definition isAbsolute (p : string) : bool := Js.startsWith p "/".

Definition joinPaths (parts : list string) : string :=
  Js.join (List.filter (λ s, negb (String.eqb s EmptyString)) parts) "/".

Definition resolvePaths (parts : list string) : string :=
  foldl (λ acc p, if isAbsolute p then p
                  else if String.eqb acc EmptyString then p
                  else joinPaths [acc; p])
        EmptyString parts.

Definition basename (p : string) : string :=
  default p (Js.pop (Js.split p "/")).

Definition enoent (p : string) : JsError :=
  MkError ("ENOENT: no such file or directory, " +:+ p).

Definition boom : JsError := MkError "boom".

Definition exists_in (w : world) (p : string) : bool :=
  if String.eqb p EmptyString then false else bool_decide (p ∈ paths w).

Definition bundle (w : world) (c : InlineConfig) : option JsError * world :=
  let lib := bo_lib (ic_build c) in
  if bool_decide (Exists (λ f, f ∈ bad_formats w) (lib_formats lib))
  then (Some boom, w)
  else (None,
        {| paths := paths w ++
                    ((λ f, joinPaths [bo_outDir (ic_build c); lib_fileName lib f])
                       <$> lib_formats lib);
           listings := listings w;
           manifests := manifests w;
           modules := modules w;
           bad_formats := bad_formats w |}).

#[export] Instance env : Env world := {|
  process_cwd := "/repo";
  path_isAbsolute := isAbsolute;
  path_join := joinPaths;
  path_resolve := resolvePaths;
  path_basename := basename;
  fs_existsSync := exists_in;
  fs_readdirSync := λ w p,
    match assoc p (listings w) with
    | Some es => inr (es.*1)
    | None => inl (enoent p)
    end;
  fs_readdirTypes := λ w p,
    match assoc p (listings w) with
    | Some es => inr es
    | None => inl (enoent p)
    end;
  read_json := λ w p,
    match assoc p (manifests w) with
    | Some pj => inr pj
    | None => inl (enoent p)
    end;
  import_default := λ w p,
    match assoc p (modules w) with
    | Some r => (r, w)
    | None => (inl (MkError ("Cannot find module " +:+ p)), w)
    end;
  vite_build := bundle;
  fs_existsSync_empty := λ w, eq_refl
|}.

Definition noOpts : Opts :=
  {| o_pkg := None; o_component := None; o_formats := None;
     o_outRoot := None; o_config := None |}.

(** packages/foo: a scoped package that lists itself as a peer. *)
Definition fooJson : PkgJson :=
  {| pj_name := Some "@lx/foo";
     pj_module := Some "src/index.ts";
     pj_main := None;
     pj_dependencies := Some [("@lx/bar", "*"); ("lodash", "^4.0.0")];
     pj_peerDependencies := Some [("vue", "*"); ("@lx/foo", "*")] |}.

(** packages/bar: unscoped, entry found through [entryFiles]. *)
Definition barJson : PkgJson :=
  {| pj_name := Some "bar";
     pj_module := None;
     pj_main := None;
     pj_dependencies := None;
     pj_peerDependencies := None |}.

(** packages/zed: its [main] is missing on disk and it has no entry file. *)
Definition zedJson : PkgJson :=
  {| pj_name := Some "@lx/zed";
     pj_module := None;
     pj_main := Some "lib/zed.js";
     pj_dependencies := None;
     pj_peerDependencies := None |}.

(** packages/components/card holds only src/Card.vue. *)
Definition w0 : world :=
  {| paths := ["/repo/packages";
               "/repo/packages/foo"; "/repo/packages/foo/package.json";
               "/repo/packages/foo/src"; "/repo/packages/foo/src/index.ts";
               "/repo/packages/foo/index.ts";
               "/repo/packages/bar"; "/repo/packages/bar/package.json";
               "/repo/packages/bar/index.ts";
               "/repo/packages/zed"; "/repo/packages/zed/package.json";
               "/repo/packages/zed/README.md";
               "/repo/packages/components";
               "/repo/packages/components/card";
               "/repo/packages/components/card/src";
               "/repo/packages/components/card/src/Card.vue";
               "/repo/broken.config.ts"];
     listings := [("/repo/packages",
                    [("bar", true); ("components", true); ("foo", true);
                     ("zed", true)]);
                  ("/repo/packages/foo",
                    [("index.ts", false); ("package.json", false); ("src", true)]);
                  ("/repo/packages/foo/src", [("index.ts", false)]);
                  ("/repo/packages/bar",
                    [("index.ts", false); ("package.json", false)]);
                  ("/repo/packages/zed",
                    [("README.md", false); ("package.json", false)]);
                  ("/repo/packages/components", [("card", true)]);
                  ("/repo/packages/components/card", [("src", true)]);
                  ("/repo/packages/components/card/src", [("Card.vue", false)])];
     manifests := [("/repo/packages/foo/package.json", fooJson);
                   ("/repo/packages/bar/package.json", barJson);
                   ("/repo/packages/zed/package.json", zedJson)];
     modules := [("/repo/broken.config.ts",
                   inl (MkError "SyntaxError: Unexpected token"))];
     bad_formats := [] |}.

(** The same tree where card also holds a Card.vue next to src. *)
Definition w_vue : world :=
  {| paths := paths w0 ++ ["/repo/packages/components/card/Card.vue"];
     listings := [("/repo/packages/components/card",
                    [("Card.vue", false); ("src", true)])];
     manifests := manifests w0; modules := modules w0; bad_formats := [] |}.

(** The same tree with a bundler that rejects the [cjs] format. *)
Definition w_cjs : world :=
  {| paths := paths w0; listings := listings w0; manifests := manifests w0;
     modules := modules w0; bad_formats := ["cjs"] |}.

End Fixture.

(** ** Vocabulary of the statements *)

(** [s] starts with [p]. *)
Definition StartsWith (s p : string) : Prop := ∃ r, s = p +:+ r.

(** The character [c] occurs in [s]. *)
Definition Occurs (c : ascii) (s : string) : Prop :=
  ∃ pre post, s = pre +:+ String c post.

(** [t] is [s] with its first [c], if it has one, deleted. *)
Definition DeleteFirst (c : ascii) (s t : string) : Prop :=
  (¬ Occurs c s ∧ t = s) ∨
  (∃ pre post, s = pre +:+ String c post ∧ ¬ Occurs c pre ∧ t = pre +:+ post).

(** The names a descriptor lists as peer and as regular dependencies. *)
Definition peerNames (pkgJson : PkgJson) : list string :=
  keys_if_present (pj_peerDependencies pkgJson).

Definition depNames (pkgJson : PkgJson) : list string :=
  keys_if_present (pj_dependencies pkgJson).

(** The configured predicate returns true on [d]. *)
Definition Externalizes (cfg : BuildConfig) (d : string) : Prop :=
  ∃ f, external cfg = Some f ∧ f d = true.

(** The [fs.existsSync] probes made for a list of entry candidates, falsy
    candidates being skipped. *)
Definition probes {World} `{!Env World} (pkgDir : string)
           (cands : list (option string)) : list Event :=
  omap (λ cand, match cand with
                | Some (String _ _ as c) => Some (EvExists (candidatePath pkgDir c))
                | _ => None
                end) cands.

(** The candidate [c] is missing on disk. *)
Definition Missing {World} `{!Env World} (w : World) (pkgDir : string)
           (cands : list (option string)) : Prop :=
  ∀ c, Some c ∈ cands → c ≠ EmptyString →
       fs_existsSync w (candidatePath pkgDir c) = false.

(** Only [vite.build] produces a build event. *)
Definition is_build (ev : Event) : bool :=
  match ev with EvBuild _ => true | _ => false end.

(** [path.isAbsolute(p) ? p : path.resolve(process.cwd(), p)] of [loadConfig]. *)
Definition configAbsPath {World} `{!Env World} (configPath : string) : string :=
  if path_isAbsolute configPath then configPath
  else path_resolve [process_cwd; configPath].

(** The options object [buildPackage] passes to the bundler for [format]
    once [entry] is resolved in the world [w] (lines 61-65 and 94-135). *)
Definition buildCall {World} `{!Env World} (w : World) (pkgDir : string)
           (pkgJson : PkgJson) (opts : Opts) (cfg : BuildConfig)
           (entry format : string) : InlineConfig :=
  let pkgName := packageName pkgDir pkgJson in
  let sn := shortName pkgName in
  let outRoot := Js.or_else (o_outRoot opts) (path_resolve [process_cwd; outRoot cfg]) in
  let viteConfig := path_join [pkgDir; "vite.config.ts"] in
  viteOptions pkgDir entry sn (path_join [outRoot; outDirName sn])
              (collectExternals pkgJson cfg)
              (if fs_existsSync w viteConfig then Some viteConfig else None)
              cfg format.

(** The formats requested for a build: [opts.formats || config.formats]. *)
Definition requestedFormats (opts : Opts) (cfg : BuildConfig) : list string :=
  default (formats cfg) (o_formats opts).

(** [path.join(path.resolve(process.cwd()), 'packages')] *)
Definition packagesDirectory {World} `{!Env World} : string :=
  path_join [path_resolve [process_cwd]; "packages"].

(** ** packages/utils/src/clone.ts

    [deepClone] is about object identity, so values live in a store: a
    value is a primitive, a function (whose [typeof] is not 'object') or a
    reference to a stored object.  A stored object is a [Date], an array or
    a plain object and carries its own enumerable string-keyed data
    properties in [for...in] order; an array has its elements besides, a
    hole being an index below [length] that holds no element.  Dates and
    arrays have the built-in prototype of their kind; a plain object has
    [Object.prototype], no prototype ([Object.create(null)]), or another
    stored object.  Numbers are opaque payloads.  The built-in prototypes
    are as the engine provides them.  The store only grows at its end, as
    allocation does.

    Accessor properties, symbol keys, non-enumerable properties and
    instances of other built-in classes have no term here. *)

Abbreviation loc := nat.

Inductive value :=
| VUndefined
| VNull
| VBool (b : bool)
| VNumber (n : Z)
| VString (s : string)
| VFunction (id : nat)
| VRef (l : loc).

(** The prototype of a plain object. *)
Inductive proto :=
| ProtoBuiltin                (* Object.prototype *)
| ProtoNull                   (* null *)
| ProtoObject (l : loc).      (* a stored object *)

Inductive object :=
| ODate (time : option Z) (props : list (string * value))
    (* getTime(), [None] being NaN *)
| OArray (elems : list (option value)) (props : list (string * value))
    (* [None] is a hole *)
| OPlain (proto : proto) (props : list (string * value)).

Abbreviation heap := (list object).

(** Where a call leaves the part of JavaScript described above.  Nothing
    is said about what happens from there on. *)
Inductive Limit :=
| UserFunction (id : nat)     (* a function stored in the value is called,
                                 or becomes the prototype of the copy *)
| UserPrototype (l : loc)     (* a property is looked up through a stored
                                 object that is a prototype *)
| Malformed.                  (* no store of a program: a reference to no
                                 object, two properties of one name *)

(** How a call ends. *)
Inductive completion (A : Type) :=
| Returns (a : A) (h : heap)
| Throws (e : JsError) (h : heap)
| Outside (why : Limit).

Arguments Returns {A} a h.
Arguments Throws {A} e h.
Arguments Outside {A} why.

(** The error of calling what is no function (the text is the engine's). *)
Definition notAFunction (what : string) : JsError :=
  MkError ("TypeError: " +:+ what +:+ " is not a function").

(** The own property [key], when there is one. *)
Fixpoint get_own (ps : list (string * value)) (key : string) : option value :=
  match ps with
  | [] => None
  | (k, v) :: ps => if decide (k = key) then Some v else get_own ps key
  end.

(** What [obj.name] is when it is about to be called: the own property of
    that name when there is one, what the prototype provides ([inherited])
    otherwise. *)
Inductive callee := Builtin | UserFn (id : nat) | NotCallable.

Definition method (props : list (string * value)) (name : string)
           (inherited : callee) : callee :=
  match get_own props name with
  | None => inherited
  | Some (VFunction id) => UserFn id
  | Some _ => NotCallable
  end.

(** [hasOwnProperty] as the prototype of a plain object provides it: the
    built-in method of [Object.prototype], or [undefined] without a
    prototype. *)
Definition inherited_hasOwnProperty (p : proto) : Limit + callee :=
  match p with
  | ProtoBuiltin => inr Builtin
  | ProtoNull => inr NotCallable
  | ProtoObject l => inl (UserPrototype l)
  end.

(** [new Date(t)], [[]], [{}]: a fresh object at the end of the store. *)
Definition alloc (h : heap) (o : object) : loc * heap := (length h, h ++ [o]).

(** [obj[i]] for [i < obj.length]: a hole reads as [undefined]. *)
Definition read_elem (x : option value) : value := default VUndefined x.

(** [arr[i] = v] on an array: in place below the length, extending beyond
    (with holes in between). *)
Definition elems_set (xs : list (option value)) (i : nat) (v : value)
  : list (option value) :=
  if decide (i < length xs) then <[i := Some v]> xs
  else xs ++ replicate (i - length xs) None ++ [Some v].

(** [o[key] = v] creating or updating an own data property: in place for an
    existing key, appended for a new one. *)
Definition props_set (ps : list (string * value)) (key : string) (v : value)
  : list (string * value) :=
  if decide (key ∈ ps.*1)
  then (λ kv, if decide (kv.1 = key) then (key, v) else kv) <$> ps
  else ps ++ [(key, v)].

(** [cloneArr[i] = v] *)
Definition array_store (h : heap) (dst : loc) (i : nat) (v : value) : heap :=
  match h !! dst with
  | Some (OArray xs ps) => <[dst := OArray (elems_set xs i v) ps]> h
  | _ => h
  end.

(** [cloneObj[key] = v].  On an object that inherits from
    [Object.prototype] and has no own property [__proto__], that key is the
    accessor of [Object.prototype]: its setter replaces the prototype of
    the object when [v] is an object, a function or [null], and does
    nothing for any other [v]; no own property is created either way.
    A prototype that is a function brings its read-only properties with
    it, and what later stores do is left open.  A store of [__proto__]
    after the prototype was replaced takes two properties of that name. *)
Definition prop_store (h : heap) (dst : loc) (key : string) (v : value)
  : Limit + heap :=
  match h !! dst with
  | Some (OPlain p ps) =>
      if decide (key = "__proto__" ∧ key ∉ ps.*1)
      then match p, v with
           | ProtoBuiltin, VRef l => inr (<[dst := OPlain (ProtoObject l) ps]> h)
           | ProtoBuiltin, VNull => inr (<[dst := OPlain ProtoNull ps]> h)
           | ProtoBuiltin, VFunction id => inl (UserFunction id)
           | ProtoBuiltin, _ => inr h
           | _, _ => inl Malformed
           end
      else inr (<[dst := OPlain p (props_set ps key v)]> h)
  | _ => inr h
  end.

(** The loop of lines 17-19 over [obj[i]], [obj[i+1]], ...  [deepClone]
    never writes to an object that existed before the call (lemma
    [deepClone_extends]), so the elements read during the loop are those
    read at its start. *)
Fixpoint cloneElems (rec : value → heap → option (completion value))
         (dst : loc) (i : nat) (xs : list (option value)) (h : heap)
  : option (completion unit) :=
  match xs with
  | [] => Some (Returns tt h)
  | x :: xs =>
      match rec (read_elem x) h with
      | Some (Returns v h) => cloneElems rec dst (S i) xs (array_store h dst i v)
      | Some (Throws e h) => Some (Throws e h)
      | Some (Outside why) => Some (Outside why)
      | None => None
      end
  end.

(** The loop of lines 25-29 over the enumerable properties, which are the
    own ones, the built-in prototype having none.  [hasOwnProperty] is
    what [obj.hasOwnProperty] is; the built-in method answers [true] on
    every key of the loop. *)
Fixpoint cloneProps (rec : value → heap → option (completion value))
         (hasOwnProperty : callee) (dst : loc) (ps : list (string * value))
         (h : heap) : option (completion unit) :=
  match ps with
  | [] => Some (Returns tt h)
  | (key, x) :: ps =>
      match hasOwnProperty with
      | Builtin =>
          match rec x h with
          | Some (Returns v h) =>
              match prop_store h dst key v with
              | inr h => cloneProps rec hasOwnProperty dst ps h
              | inl why => Some (Outside why)
              end
          | Some (Throws e h) => Some (Throws e h)
          | Some (Outside why) => Some (Outside why)
          | None => None
          end
      | UserFn id => Some (Outside (UserFunction id))
      | NotCallable => Some (Throws (notAFunction "obj.hasOwnProperty") h)
      end
  end.

(** [deepClone(obj)] run in the store [h], with [fuel] bounding the depth of
    the recursion: [None] is a call that does not end within it. *)
Fixpoint deepClone (fuel : nat) (obj : value) (h : heap)
  : option (completion value) :=
  match obj with
  | VRef l =>
      match fuel with
      | O => None
      | S fuel =>
          match h !! l with
          | Some (ODate time props) =>
              match method props "getTime" Builtin with
              | Builtin =>
                  let '(d, h) := alloc h (ODate time []) in Some (Returns (VRef d) h)
              | UserFn id => Some (Outside (UserFunction id))
              | NotCallable => Some (Throws (notAFunction "obj.getTime") h)
              end
          | Some (OArray elems _) =>
              let '(cloneArr, h) := alloc h (OArray [] []) in
              match cloneElems (deepClone fuel) cloneArr 0 elems h with
              | Some (Returns _ h) => Some (Returns (VRef cloneArr) h)
              | Some (Throws e h) => Some (Throws e h)
              | Some (Outside why) => Some (Outside why)
              | None => None
              end
          | Some (OPlain proto props) =>
              match inherited_hasOwnProperty proto with
              | inr inherited =>
                  let '(cloneObj, h) := alloc h (OPlain ProtoBuiltin []) in
                  match cloneProps (deepClone fuel)
                                   (method props "hasOwnProperty" inherited)
                                   cloneObj props h with
                  | Some (Returns _ h) => Some (Returns (VRef cloneObj) h)
                  | Some (Throws e h) => Some (Throws e h)
                  | Some (Outside why) => Some (Outside why)
                  | None => None
                  end
              | inl why => Some (Outside why)
              end
          | None => Some (Outside Malformed)
          end
      end
  | _ => Some (Returns obj h)
  end.

(** *** Structure and identity of stored values *)

#[local] Unset Elimination Schemes.

(** The unfolding of a value whose plain objects inherit from
    [Object.prototype], along the array elements and the properties of
    plain objects, which is what [deepClone] visits: its structure, with
    the location of every object met on the way.  The own properties of a
    Date or of an array are not visited; their names are kept ([extra]). *)
Inductive ltree :=
| LPrim (v : value)
| LHole
| LDate (l : loc) (time : option Z) (extra : list string)
| LArray (l : loc) (elems : list ltree) (extra : list string)
| LObject (l : loc) (props : list (string * ltree)).

(** Structure alone. *)
Inductive tree :=
| TPrim (v : value)
| THole
| TDate (time : option Z) (extra : list string)
| TArray (elems : list tree) (extra : list string)
| TObject (props : list (string * tree)).

#[local] Set Elimination Schemes.

Fixpoint erase (t : ltree) : tree :=
  match t with
  | LPrim v => TPrim v
  | LHole => THole
  | LDate _ time extra => TDate time extra
  | LArray _ ts extra => TArray (erase <$> ts) extra
  | LObject _ ps => TObject ((λ kt, (kt.1, erase kt.2)) <$> ps)
  end.

(** The objects a value is made of. *)
Fixpoint locs (t : ltree) : list loc :=
  match t with
  | LPrim _ | LHole => []
  | LDate l _ _ => [l]
  | LArray l ts _ => l :: concat (locs <$> ts)
  | LObject l ps => l :: concat ((λ kt, locs kt.2) <$> ps)
  end.

(** Unfolding to depth [fuel]: fails on a dangling reference, on an object
    with a repeated key, on a plain object that does not inherit from
    [Object.prototype], and on a value nested deeper than [fuel], which
    every cyclic value is. *)
Fixpoint reify (fuel : nat) (h : heap) (v : value) : option ltree :=
  match v with
  | VRef l =>
      match fuel with
      | O => None
      | S fuel =>
          match h !! l with
          | Some (ODate t ps) => Some (LDate l t ps.*1)
          | Some (OArray xs ps) =>
              (λ ts, LArray l ts ps.*1) <$>
              mapM (λ x, match x with
                         | Some x => reify fuel h x
                         | None => Some LHole
                         end) xs
          | Some (OPlain ProtoBuiltin ps) =>
              if decide (NoDup ps.*1)
              then LObject l <$> mapM (λ kv, pair kv.1 <$> reify fuel h kv.2) ps
              else None
          | Some (OPlain _ _) => None
          | None => None
          end
      end
  | _ => Some (LPrim v)
  end.

(** An element of an array and its unfolding. *)
Definition reify_elem (n : nat) (h : heap) (x : option value) (t : ltree) : Prop :=
  match x with
  | Some x => reify n h x = Some t
  | None => t = LHole
  end.

(** The values on which no step of [deepClone] meets an own property that
    stands in for a built-in one: no Date with an own [getTime], no plain
    object with an own [hasOwnProperty] or [__proto__]. *)
Fixpoint clonable (t : ltree) : bool :=
  match t with
  | LPrim _ | LHole => true
  | LDate _ _ extra => bool_decide ("getTime" ∉ extra)
  | LArray _ ts _ => forallb clonable ts
  | LObject _ ps =>
      bool_decide ("hasOwnProperty" ∉ ps.*1) && bool_decide ("__proto__" ∉ ps.*1)
      && forallb (λ kt, clonable kt.2) ps
  end.

(** The structure of the copy of a structure: holes are filled with
    [undefined], the own properties of Dates and of arrays are gone. *)
Fixpoint copied (t : tree) : tree :=
  match t with
  | TPrim v => TPrim v
  | THole => TPrim VUndefined
  | TDate time _ => TDate time []
  | TArray ts _ => TArray (copied <$> ts) []
  | TObject ps => TObject ((λ kt, (kt.1, copied kt.2)) <$> ps)
  end.






(** What a call of [deepClone] with fuel [n] does on a clonable value that
    unfolds within depth [n]: it returns, leaves the objects of [h] in
    place, and the value returned unfolds to the structure [copied] gives,
    through objects allocated after [h], none of them met twice. *)
Definition clone_tree (n : nat) : Prop :=
  ∀ v h t, reify n h v = Some t → clonable t = true →
    ∃ (v' : value) (h' : heap) (t' : ltree),
      deepClone n v h = Some (Returns v' h') ∧
      (∀ l, (l < length h)%nat → h' !! l = h !! l) ∧
      (length h ≤ length h')%nat ∧
      reify n h' v' = Some t' ∧
      erase t' = copied (erase t) ∧
      (∀ l, l ∈ locs t' → (length h ≤ l)%nat) ∧
      NoDup (locs t').




(** [x = { n: 1 }; [x, x]]: one object referenced twice. *)
Definition sharedHeap : heap :=
  [OPlain ProtoBuiltin [("n", VNumber 1)]; OArray [Some (VRef 0); Some (VRef 0)] []].






(** ** build-packages.ts: parseArgs

    [parseArgs] reads [process.argv.slice(2)].  It ends with the options,
    in [process.exit(0)] after printing the usage line with [console.log],
    or in the TypeError of [undefined.split(',')] when the formats flag is
    the last token. *)

Inductive ArgsResult :=
| ArgsOk (opts : Opts)
| ArgsHelp (printed : string)
| ArgsTypeError.

(** [const opts: Opts = {}] *)
Definition emptyOpts : Opts :=
  {| o_pkg := None; o_component := None; o_formats := None;
     o_outRoot := None; o_config := None |}.

(** [opts.pkg = v] and its siblings. *)
Definition set_pkg (opts : Opts) (v : option string) : Opts :=
  {| o_pkg := v; o_component := o_component opts; o_formats := o_formats opts;
     o_outRoot := o_outRoot opts; o_config := o_config opts |}.

Definition set_component (opts : Opts) (v : option string) : Opts :=
  {| o_pkg := o_pkg opts; o_component := v; o_formats := o_formats opts;
     o_outRoot := o_outRoot opts; o_config := o_config opts |}.

Definition set_formats (opts : Opts) (v : option (list string)) : Opts :=
  {| o_pkg := o_pkg opts; o_component := o_component opts; o_formats := v;
     o_outRoot := o_outRoot opts; o_config := o_config opts |}.

Definition set_outRoot (opts : Opts) (v : option string) : Opts :=
  {| o_pkg := o_pkg opts; o_component := o_component opts; o_formats := o_formats opts;
     o_outRoot := v; o_config := o_config opts |}.

Definition set_config (opts : Opts) (v : option string) : Opts :=
  {| o_pkg := o_pkg opts; o_component := o_component opts; o_formats := o_formats opts;
     o_outRoot := o_outRoot opts; o_config := v |}.

(** The usage line of line 27. *)
Definition usage : string :=
  "Usage: build-packages.ts [--pkg <name>] [--component <name>] [--formats es,cjs,umd] [--out <outRoot>] [--config <configPath>]".

(** The loop of lines 19-30 from index [i] on, [argv] being the tokens from
    [i]: a flag takes [argv[++i]] as its value, [undefined] when the flag is
    the last token. *)
Fixpoint parseArgsFrom (argv : list string) (opts : Opts) : ArgsResult :=
  match argv with
  | [] => ArgsOk opts
  | a :: rest =>
      if String.eqb a "--pkg" || String.eqb a "-p" then
        match rest with
        | v :: rest => parseArgsFrom rest (set_pkg opts (Some v))
        | [] => ArgsOk (set_pkg opts None)
        end
      else if String.eqb a "--component" || String.eqb a "-c" then
        match rest with
        | v :: rest => parseArgsFrom rest (set_component opts (Some v))
        | [] => ArgsOk (set_component opts None)
        end
      else if String.eqb a "--formats" || String.eqb a "-f" then
        match rest with
        | v :: rest => parseArgsFrom rest (set_formats opts (Some (Js.split v ",")))
        | [] => ArgsTypeError
        end
      else if String.eqb a "--out" || String.eqb a "-o" then
        match rest with
        | v :: rest => parseArgsFrom rest (set_outRoot opts (Some v))
        | [] => ArgsOk (set_outRoot opts None)
        end
      else if String.eqb a "--config" then
        match rest with
        | v :: rest => parseArgsFrom rest (set_config opts (Some v))
        | [] => ArgsOk (set_config opts None)
        end
      else if String.eqb a "--help" || String.eqb a "-h" then ArgsHelp usage
      else parseArgsFrom rest opts
  end.

Definition parseArgs (argv : list string) : ArgsResult :=
  parseArgsFrom argv emptyOpts.

(** The error thrown by [argv[++i].split(',')] on [undefined] (the text is
    the engine's). *)
Definition splitTypeError : JsError :=
  MkError "TypeError: Cannot read properties of undefined (reading 'split')".

(** The whole process: [main()] starts with [parseArgs()], whose TypeError
    is a rejection of [main()] like any other and whose [process.exit(0)]
    ends the run at once.  The usage line is kept in [ArgsHelp]; it is not
    an event of the trace. *)
Definition runArgv {World} `{!Env World} (argv : list string) : World → Out World Z :=
  λ w,
    match parseArgs argv with
    | ArgsOk opts => run opts w
    | ArgsHelp _ => MkOut (Ok 0%Z) w []
    | ArgsTypeError => MkOut (Ok 1%Z) w [EvConsoleError [message splitTypeError]]
    end.

(** *** Vocabulary for command lines *)

Inductive OptKey := KPkg | KComponent | KFormats | KOut | KConfig.

(** The spellings of a flag. *)
Definition flagNames (k : OptKey) : list string :=
  match k with
  | KPkg => ["--pkg"; "-p"]
  | KComponent => ["--component"; "-c"]
  | KFormats => ["--formats"; "-f"]
  | KOut => ["--out"; "-o"]
  | KConfig => ["--config"]
  end.

(** Every token [parseArgs] reacts to. *)
Definition recognisedFlags : list string :=
  ["--pkg"; "-p"; "--component"; "-c"; "--formats"; "-f"; "--out"; "-o";
   "--config"; "--help"; "-h"].

(** One item of a command line: a flag with its value, or a token that is
    no flag. *)
Inductive Arg :=
| ArgFlag (k : OptKey) (flag value : string)
| ArgOther (token : string).

Definition WellFormedArg (x : Arg) : Prop :=
  match x with
  | ArgFlag k flag _ => flag ∈ flagNames k
  | ArgOther token => token ∉ recognisedFlags
  end.

Definition argTokens (x : Arg) : list string :=
  match x with
  | ArgFlag _ flag value => [flag; value]
  | ArgOther token => [token]
  end.

(** The tokens of a command line made of the items [args]. *)
Definition commandLine (args : list Arg) : list string :=
  concat (argTokens <$> args).

(** What an item means for the options. *)
Definition applyArg (opts : Opts) (x : Arg) : Opts :=
  match x with
  | ArgFlag KPkg _ v => set_pkg opts (Some v)
  | ArgFlag KComponent _ v => set_component opts (Some v)
  | ArgFlag KFormats _ v => set_formats opts (Some (Js.split v ","))
  | ArgFlag KOut _ v => set_outRoot opts (Some v)
  | ArgFlag KConfig _ v => set_config opts (Some v)
  | ArgOther _ => opts
  end.

(** [opts.<key> = undefined], what a flag without a value does. *)
Definition unsetKey (opts : Opts) (k : OptKey) : Opts :=
  match k with
  | KPkg => set_pkg opts None
  | KComponent => set_component opts None
  | KFormats => set_formats opts None
  | KOut => set_outRoot opts None
  | KConfig => set_config opts None
  end.

(** A command line that spells out the options [o], in the order of the
    usage line. *)
Definition renderOpts (o : Opts) : list string :=
  from_option (λ v, ["--pkg"; v]) [] (o_pkg o) ++
  from_option (λ v, ["--component"; v]) [] (o_component o) ++
  from_option (λ fs, ["--formats"; Js.join fs ","]) [] (o_formats o) ++
  from_option (λ v, ["--out"; v]) [] (o_outRoot o) ++
  from_option (λ v, ["--config"; v]) [] (o_config o).

(** Events that touch the file system, the module loader or the bundler. *)
Definition is_io (ev : Event) : bool :=
  match ev with
  | EvLog _ | EvConsoleError _ => false
  | _ => true
  end.

(** The names accepted by the index fallback of [buildPackage]. *)
Definition indexFileNames : list string :=
  ["index.ts"; "index.js"; "index.mjs"; "index.cjs"; "index.tsx"].

(** The bundler accepts the calls [cs] one after the other, which takes
    the world from [w] to [w']. *)
Inductive Accepts {World} `{!Env World} : World → list InlineConfig → World → Prop :=
| Accepts_nil w : Accepts w [] w
| Accepts_cons w c w1 cs w2 :
    vite_build w c = (None, w1) → Accepts w1 cs w2 → Accepts w (c :: cs) w2.

(** The "Building" line logged by [buildPackage] (line 92). *)
Definition buildingLine {World} `{!Env World} (pkgDir : string) (pkgJson : PkgJson)
           (opts : Opts) (cfg : BuildConfig) (entry : string) : list string :=
  let pkgName := packageName pkgDir pkgJson in
  let outRoot := Js.or_else (o_outRoot opts) (path_resolve [process_cwd; outRoot cfg]) in
  ["Building"; pkgName; "entry="; entry; "formats=";
   Js.join (requestedFormats opts cfg) ","; "outDir=";
   path_join [outRoot; outDirName (shortName pkgName)]].

(** The events of a format loop whose builds all succeed: the line of each
    format followed by its bundler call. *)
Definition loopEvents (mk : string → InlineConfig) (fmts : list string) : list Event :=
  fmts ≫= λ f, [EvLog [buildLine f (ic_configFile (mk f))]; EvBuild (mk f)].

(** The manifest of a package directory. *)
Definition manifestPath {World} `{!Env World} (dir : string) : string :=
  path_join [dir; "package.json"].

(** The directory [dir] has a readable manifest and is not the package
    [pkg], neither by declared name nor by directory name. *)
Definition NotTarget {World} `{!Env World} (w : World) (pkg dir : string) : Prop :=
  ∃ pj, read_json w (manifestPath dir) = inr pj ∧
        pj_name pj ≠ Some pkg ∧ path_basename dir ≠ pkg.

(** The directory [dir] has a readable manifest and is the package [pkg],
    by declared name or by directory name. *)
Definition IsTarget {World} `{!Env World} (w : World) (pkg dir : string) : Prop :=
  ∃ pj, read_json w (manifestPath dir) = inr pj ∧
        (pj_name pj = Some pkg ∨ path_basename dir = pkg).

(** The [components] directory of the packages directory. *)
Definition componentsDirectory {World} `{!Env World} : string :=
  path_join [packagesDirectory; "components"].

(** A small tree with one buildable package next to a plain file and a
    directory without manifest. *)
Definition smallWorld : Fixture.world :=
  {| Fixture.paths := ["/repo/packages"; "/repo/packages/README.md";
                       "/repo/packages/bar"; "/repo/packages/bar/package.json";
                       "/repo/packages/bar/index.ts"; "/repo/packages/docs"];
     Fixture.listings := [("/repo/packages",
                            [("README.md", false); ("bar", true); ("docs", true)]);
                          ("/repo/packages/bar",
                            [("index.ts", false); ("package.json", false)])];
     Fixture.manifests := [("/repo/packages/bar/package.json", Fixture.barJson)];
     Fixture.modules := [];
     Fixture.bad_formats := [] |}.

(** [export default { formats: ['es'], outRoot: 'lib', globals: { vue: 'Vue' } }] *)
Definition libConfig : PartialConfig :=
  {| p_formats := Some ["es"]; p_outRoot := Some "lib"; p_entryFiles := None;
     p_globals := Some [("vue", "Vue")]; p_external := None; p_vite := None;
     p_vue := None |}.

(** A repository whose only file is lib.config.ts, the module above. *)
Definition configWorld : Fixture.world :=
  {| Fixture.paths := ["/repo/lib.config.ts"];
     Fixture.listings := [];
     Fixture.manifests := [];
     Fixture.modules := [("/repo/lib.config.ts", inr (Some libConfig))];
     Fixture.bad_formats := [] |}.

(** * Properties *)

(** ** Strings *)

#[local] Arguments String.append !_ _ / : simpl nomatch.

Lemma startsWith_spec s p : Js.startsWith s p = true ↔ StartsWith s p.
Proof.
  unfold Js.startsWith, StartsWith. revert s.
  induction p as [|a p IH]; intros s.
  - destruct s; simpl; (split; [intros _; eexists; reflexivity | reflexivity]).
  - destruct s as [|b s]; simpl.
    + split; [discriminate | intros [r Hr]; discriminate].
    + destruct (ascii_dec a b) as [->|Hne].
      * rewrite IH. split; intros [r Hr]; exists r; simpl in *; congruence.
      * split; [discriminate | intros [r Hr]; simpl in Hr; congruence].
Qed.

Lemma includes_char_spec s c : Js.includes_char s c = true ↔ Occurs c s.
Proof.
  unfold Occurs. induction s as [|a s IH]; simpl.
  - split; [discriminate | intros ([|? ?] & post & H); discriminate].
  - destruct (Ascii.eqb_spec a c) as [->|Hne].
    + split; [intros _; exists EmptyString, s; reflexivity | reflexivity].
    + rewrite IH. split.
      * intros (pre & post & ->). exists (String a pre), post. reflexivity.
      * intros ([|b pre] & post & H); simpl in H; inversion H; subst;
          [congruence | eauto].
Qed.

Lemma includes_char_false s c : Js.includes_char s c = false ↔ ¬ Occurs c s.
Proof.
  rewrite <- includes_char_spec. destruct (Js.includes_char s c); split; congruence.
Qed.

Lemma includes_char_app s t c :
  Js.includes_char (s +:+ t) c = Js.includes_char s c || Js.includes_char t c.
Proof.
  induction s as [|a s IH]; simpl; [reflexivity|].
  destruct (Ascii.eqb a c); [reflexivity | apply IH].
Qed.

Lemma split_nonempty s c : Js.split s c ≠ [].
Proof.
  destruct s as [|a r]; simpl; [discriminate|].
  destruct (Ascii.eqb a c); [discriminate|].
  destruct (Js.split r c); discriminate.
Qed.

Lemma split_no_sep s c : Js.includes_char s c = false → Js.split s c = [s].
Proof.
  induction s as [|a r IH]; simpl; [reflexivity|].
  destruct (Ascii.eqb a c); [discriminate|].
  intros H. rewrite (IH H). reflexivity.
Qed.

Lemma split_with_sep s c :
  Js.includes_char s c = true → ∃ s1 s2 ss, Js.split s c = s1 :: s2 :: ss.
Proof.
  induction s as [|a r IH]; simpl; [discriminate|].
  destruct (Ascii.eqb a c).
  - intros _. pose proof (split_nonempty r c).
    destruct (Js.split r c) as [|s2 ss]; [congruence | eauto].
  - intros H. destruct (IH H) as (s1 & s2 & ss & ->). eauto.
Qed.

(** The last segment of [s.split(c)] is the text after the last [c]. *)
Lemma split_pop s c :
  ∃ x, Js.pop (Js.split s c) = Some x ∧ Js.includes_char x c = false ∧
       (if Js.includes_char s c then ∃ pre, s = pre +:+ String c x else s = x).
Proof.
  unfold Js.pop. induction s as [|a r (x & Hl & Hx & Hs)]; simpl.
  - exists EmptyString. auto.
  - destruct (Ascii.eqb_spec a c) as [->|Hne].
    + pose proof (split_nonempty r c) as Hnn.
      destruct (Js.split r c) as [|seg segs] eqn:E; [congruence|].
      exists x. split; [exact Hl|]. split; [exact Hx|].
      destruct (Js.includes_char r c).
      * destruct Hs as [pre ->]. exists (String c pre). reflexivity.
      * subst r. exists EmptyString. reflexivity.
    + destruct (Js.includes_char r c) eqn:Hi.
      * destruct (split_with_sep _ _ Hi) as (s1 & s2 & ss & E).
        rewrite E in Hl |- *. exists x. split; [exact Hl|]. split; [exact Hx|].
        destruct Hs as [pre ->]. exists (String a pre). reflexivity.
      * rewrite (split_no_sep _ _ Hi). exists (String a r). simpl.
        apply Ascii.eqb_neq in Hne. rewrite Hne. auto.
Qed.

Lemma replace_spec s c r :
  ∃ t, DeleteFirst c s t ∧
       ((¬ Occurs c s ∧ Js.replace s c r = s) ∨
        (∃ pre post, s = pre +:+ String c post ∧ ¬ Occurs c pre ∧
                     Js.replace s c r = pre +:+ r +:+ post)).
Proof.
  induction s as [|a s (t & Ht & IH)]; simpl.
  - exists EmptyString.
    assert (¬ Occurs c EmptyString) by (apply includes_char_false; reflexivity).
    split; left; auto.
  - destruct (Ascii.eqb_spec a c) as [->|Hne].
    + assert (¬ Occurs c EmptyString) by (apply includes_char_false; reflexivity).
      exists s. split; right; exists EmptyString, s; auto.
    + destruct IH as [[Hno Hr] | (pre & post & -> & Hno & Hr)].
      * exists (String a s). rewrite Hr.
        assert (¬ Occurs c (String a s)).
        { apply includes_char_false. simpl.
          apply Ascii.eqb_neq in Hne. rewrite Hne.
          apply includes_char_false, Hno. }
        split; left; auto.
      * exists (String a (pre +:+ post)). rewrite Hr.
        assert (¬ Occurs c (String a pre)).
        { apply includes_char_false. simpl.
          apply Ascii.eqb_neq in Hne. rewrite Hne.
          apply includes_char_false, Hno. }
        split; right; exists (String a pre), post; auto.
Qed.

Lemma replace_absent s c r : Js.includes_char s c = false → Js.replace s c r = s.
Proof.
  induction s as [|a s IH]; simpl; [reflexivity|].
  destruct (Ascii.eqb a c); [discriminate|]. intros H. rewrite IH; auto.
Qed.

Lemma replace_delete_keeps s c d :
  Js.includes_char s d = false →
  Js.includes_char (Js.replace s c EmptyString) d = false.
Proof.
  induction s as [|a s IH]; simpl; [reflexivity|].
  destruct (Ascii.eqb a d) eqn:Ead; [discriminate|]. intros H.
  destruct (Ascii.eqb a c); simpl; [exact H|]. rewrite Ead. auto.
Qed.

Lemma replace_delete_first s c : DeleteFirst c s (Js.replace s c EmptyString).
Proof.
  destruct (replace_spec s c EmptyString)
    as (t & _ & [[Hno ->] | (pre & post & -> & Hno & ->)]).
  - left. auto.
  - right. exists pre, post. auto.
Qed.

(** Membership in an explicit list. *)
Ltac in_list := apply list_elem_of_In; vm_compute; tauto.
Ltac not_in_list H := apply list_elem_of_In in H; vm_compute in H; intuition discriminate.

(** ** The externals *)

Lemma set_add_elem s d x : x ∈ set_add s d ↔ x ∈ s ∨ x = d.
Proof.
  unfold set_add. case_bool_decide as Hd.
  - split; [auto | intros [?| ->]; auto].
  - rewrite elem_of_app, list_elem_of_singleton. reflexivity.
Qed.

Lemma set_add_NoDup s d : NoDup s → NoDup (set_add s d).
Proof.
  unfold set_add. intros Hs. case_bool_decide as Hd; [exact Hs|].
  apply NoDup_app. split; [exact Hs|]. split.
  - intros x Hx Hx'. apply list_elem_of_singleton in Hx'. subst. auto.
  - apply NoDup_singleton.
Qed.

Lemma foldl_set_add_if (P : string → bool) l s x :
  x ∈ foldl (λ s d, if P d then set_add s d else s) s l ↔
  x ∈ s ∨ (x ∈ l ∧ P x = true).
Proof.
  revert s. induction l as [|d l IH]; intros s; simpl.
  - split; [auto | intros [?|[H _]]; [auto | inversion H]].
  - rewrite IH. destruct (P d) eqn:Hd.
    + rewrite set_add_elem, elem_of_cons. split.
      * intros [[?| ->]|[? ?]]; auto.
      * intros [?|[[->|?] ?]]; auto.
    + rewrite elem_of_cons. split.
      * intros [?|[? ?]]; auto.
      * intros [?|[[->|?] ?]]; [auto | congruence | auto].
Qed.

Lemma foldl_set_add_if_NoDup (P : string → bool) l s :
  NoDup s → NoDup (foldl (λ s d, if P d then set_add s d else s) s l).
Proof.
  revert s. induction l as [|d l IH]; intros s Hs; simpl; [exact Hs|].
  apply IH. destruct (P d); [apply set_add_NoDup|]; exact Hs.
Qed.

Lemma collectExternals_elem pkgJson cfg d :
  d ∈ collectExternals pkgJson cfg ↔
  d ∈ peerNames pkgJson ∨ (d ∈ depNames pkgJson ∧ Externalizes cfg d).
Proof.
  unfold collectExternals, peerNames, depNames, Externalizes.
  rewrite foldl_set_add_if.
  rewrite (foldl_set_add_if (λ _, true) _ [] d).
  unfold externalOf. split.
  - intros [[H|[H _]]|[H1 H2]]; [inversion H | auto |].
    destruct (external cfg) as [f|]; [eauto | discriminate].
  - intros [H|[H1 (f & Hf & Hd)]]; [auto|]. right. rewrite Hf. auto.
Qed.

(** C6.  The [external] predicate of the built-in configuration returns
    true on "vue", true on every name that does not start with "@lx/",
    and false on every name that starts with "@lx/". *)
Theorem default_external_predicate :
  ∃ f, external config = Some f ∧
       f "vue" = true ∧
       (∀ d, ¬ StartsWith d "@lx/" → f d = true) ∧
       (∀ d, StartsWith d "@lx/" → f d = false).
Proof.
  exists config_external. split; [reflexivity|]. split; [reflexivity|].
  unfold config_external. split; intros d Hd.
  - destruct (String.eqb d "vue"); [reflexivity|].
    destruct (Js.startsWith d "@lx/") eqn:E; [|reflexivity].
    apply startsWith_spec in E. contradiction.
  - apply startsWith_spec in Hd as Hs. rewrite Hs.
    destruct Hd as [r ->]. reflexivity.
Qed.

Lemma default_external_predicate_witness :
  ∃ f, external config = Some f ∧ f "lodash" = true ∧ f "@lx/bar" = false.
Proof.
  destruct default_external_predicate as (f & Hf & _ & Hother & Hlx).
  exists f. split; [exact Hf|]. split.
  - apply Hother. intros [r Hr]. discriminate Hr.
  - apply Hlx. exists "bar". reflexivity.
Defined.

(** C2, as stated, fails.  The descriptor of packages/foo is named
    "@lx/foo" and lists "@lx/foo" among its peer dependencies: the name is
    in the external set. *)
Lemma externals_contain_self_reference :
  @packageName _ Fixture.env "/repo/packages/foo" Fixture.fooJson = "@lx/foo" ∧
  "@lx/foo" ∈ peerNames Fixture.fooJson ∧
  "@lx/foo" ∈ collectExternals Fixture.fooJson config.
Proof.
  split; [reflexivity|]. split; in_list.
Qed.

(** C2, amended.  The external set contains the package's own name exactly
    when the descriptor lists that name as a peer dependency, or as a
    regular dependency on which the predicate returns true; a package that
    does not list itself in this way is not in its own external set. *)
Theorem externals_self_iff_listed {World} `{!Env World}
        (pkgDir : string) (pkgJson : PkgJson) (cfg : BuildConfig) :
  let self := packageName pkgDir pkgJson in
  (self ∈ collectExternals pkgJson cfg ↔
   self ∈ peerNames pkgJson ∨ (self ∈ depNames pkgJson ∧ Externalizes cfg self)) ∧
  (self ∉ peerNames pkgJson →
   (self ∈ depNames pkgJson → ¬ Externalizes cfg self) →
   self ∉ collectExternals pkgJson cfg).
Proof.
  intros self. split; [apply collectExternals_elem|].
  intros Hp Hd H. apply collectExternals_elem in H.
  destruct H as [H|[H1 H2]]; [auto | exact (Hd H1 H2)].
Qed.

Lemma externals_self_iff_listed_witness :
  @packageName _ Fixture.env "/repo/packages/bar" Fixture.barJson
    ∉ collectExternals Fixture.barJson config.
Proof.
  apply (externals_self_iff_listed (Env0:=Fixture.env)).
  - intros H. not_in_list H.
  - intros H. not_in_list H.
Defined.

(** ** The effect monad *)

Section MonadFacts.
Context {World : Type}.

Lemma bind_ok {A B} (m : M World A) (k : A → M World B) w a :
  res (m w) = Ok a →
  bind m k w =
  MkOut (res (k a (world_after (m w))))
        (world_after (k a (world_after (m w))))
        (trace (m w) ++ trace (k a (world_after (m w)))).
Proof. unfold bind. intros ->. reflexivity. Qed.

Lemma bind_throw {A B} (m : M World A) (k : A → M World B) w e :
  res (m w) = Throw e →
  bind m k w = MkOut (Throw e) (world_after (m w)) (trace (m w)).
Proof. unfold bind. intros ->. reflexivity. Qed.

Lemma bind_exit {A B} (m : M World A) (k : A → M World B) w c :
  res (m w) = Exit c →
  bind m k w = MkOut (Exit c) (world_after (m w)) (trace (m w)).
Proof. unfold bind. intros ->. reflexivity. Qed.

(** An event of [m >>= k] comes from [m] or from the continuation. *)
Lemma bind_event {A B} (m : M World A) (k : A → M World B) w ev :
  ev ∈ trace (bind m k w) →
  ev ∈ trace (m w) ∨
  ∃ a, res (m w) = Ok a ∧ ev ∈ trace (k a (world_after (m w))).
Proof.
  unfold bind. destruct (res (m w)) as [a|e|c]; simpl; auto.
  rewrite elem_of_app. intros [?|?]; eauto.
Qed.

Lemma try_catch_event {A} (m : M World A) (h : JsError → M World A) w ev :
  ev ∈ trace (try_catch m h w) →
  ev ∈ trace (m w) ∨
  ∃ e, res (m w) = Throw e ∧ ev ∈ trace (h e (world_after (m w))).
Proof.
  unfold try_catch. destruct (res (m w)) as [a|e|c]; simpl; auto.
  rewrite elem_of_app. intros [?|?]; eauto.
Qed.
End MonadFacts.

(** ** Entry resolution *)

Section EntryFacts.
Context {World : Type} `{!Env World}.

Lemma existsSync_out w p :
  existsSync p w = MkOut (Ok (fs_existsSync w p)) w [EvExists p].
Proof. reflexivity. Qed.

Lemma Missing_nil w pkgDir : Missing w pkgDir [].
Proof. intros c Hc. inversion Hc. Qed.

Lemma Missing_cons_skip w pkgDir cand l :
  Js.truthy cand = false → Missing w pkgDir l → Missing w pkgDir (cand :: l).
Proof.
  intros Hf Hl c Hc Hne. apply elem_of_cons in Hc as [<-|Hc]; [|auto].
  destruct c; [congruence | discriminate].
Qed.

Lemma Missing_cons_absent w pkgDir c l :
  fs_existsSync w (candidatePath pkgDir c) = false →
  Missing w pkgDir l → Missing w pkgDir (Some c :: l).
Proof.
  intros Hf Hl c' Hc Hne. apply elem_of_cons in Hc as [Hc|Hc]; [|auto].
  congruence.
Qed.

(** The loop returns the first candidate present on disk, probing the
    candidates before it and none after it. *)
Lemma tryCandidates_spec pkgDir cands w :
  let o := tryCandidates pkgDir cands w in
  world_after o = w ∧
  ((∃ before c after,
       cands = before ++ Some c :: after ∧
       c ≠ EmptyString ∧
       fs_existsSync w (candidatePath pkgDir c) = true ∧
       Missing w pkgDir before ∧
       res o = Ok (Some (candidatePath pkgDir c)) ∧
       trace o = probes pkgDir before ++ [EvExists (candidatePath pkgDir c)])
   ∨ (Missing w pkgDir cands ∧ res o = Ok None ∧ trace o = probes pkgDir cands)).
Proof.
  induction cands as [|cand rest (Hw & IH)]; simpl.
  - split; [reflexivity|]. right. split; [apply Missing_nil | auto].
  - assert (Hskip : Js.truthy cand = false →
              world_after (tryCandidates pkgDir rest w) = w ∧
              ((∃ before c after,
                   cand :: rest = before ++ Some c :: after ∧
                   c ≠ EmptyString ∧
                   fs_existsSync w (candidatePath pkgDir c) = true ∧
                   Missing w pkgDir before ∧
                   res (tryCandidates pkgDir rest w)
                     = Ok (Some (candidatePath pkgDir c)) ∧
                   trace (tryCandidates pkgDir rest w)
                     = probes pkgDir before ++ [EvExists (candidatePath pkgDir c)])
               ∨ (Missing w pkgDir (cand :: rest) ∧
                  res (tryCandidates pkgDir rest w) = Ok None ∧
                  trace (tryCandidates pkgDir rest w) = probes pkgDir (cand :: rest)))).
    { intros Hf. split; [exact Hw|].
      assert (Hp : ∀ l, probes pkgDir (cand :: l) = probes pkgDir l).
      { intros l. unfold probes. simpl. destruct cand as [[|? ?]|]; try reflexivity.
        discriminate. }
      destruct IH as [(before & c & after & -> & Hc & He & Hm & Hr & Ht)
                     | (Hm & Hr & Ht)].
      - left. exists (cand :: before), c, after. rewrite Hp.
        repeat split; auto using Missing_cons_skip.
      - right. rewrite Hp. auto using Missing_cons_skip. }
    destruct cand as [[|a s]|]; [apply Hskip; reflexivity | | apply Hskip; reflexivity].
    clear Hskip. set (c := String a s). set (p := candidatePath pkgDir c).
    unfold bind. rewrite existsSync_out. simpl.
    destruct (fs_existsSync w p) eqn:Hex; simpl.
    + split; [reflexivity|]. left. exists [], c, rest.
      repeat split; auto using Missing_nil; discriminate.
    + split; [exact Hw|].
      destruct IH as [(before & c' & after & -> & Hc & He & Hm & Hr & Ht)
                     | (Hm & Hr & Ht)].
      * left. exists (Some c :: before), c', after. rewrite Hr, Ht.
        repeat split; auto using Missing_cons_absent.
      * right. rewrite Hr, Ht. repeat split; auto using Missing_cons_absent.
Qed.
End EntryFacts.

Section BuildFacts.
Context {World : Type} `{!Env World}.

Lemma tryCandidates_world pkgDir cands w :
  world_after (tryCandidates pkgDir cands w) = w.
Proof. apply tryCandidates_spec. Qed.

Lemma probes_no_build pkgDir cands : Forall (λ ev, is_build ev = false) (probes pkgDir cands).
Proof.
  unfold probes. induction cands as [|[[|a s]|] l IH]; simpl; auto.
Qed.

Lemma tryCandidates_no_build pkgDir cands w :
  Forall (λ ev, is_build ev = false) (trace (tryCandidates pkgDir cands w)).
Proof.
  destruct (tryCandidates_spec pkgDir cands w)
    as (_ & [(before & c & after & _ & _ & _ & _ & _ & ->) | (_ & _ & ->)]).
  - apply Forall_app. split; [apply probes_no_build | repeat constructor].
  - apply probes_no_build.
Qed.

Lemma resolveEntry_world pkgDir pkgJson pkgName cfg w :
  world_after (resolveEntry pkgDir pkgJson pkgName cfg w) = w.
Proof.
  unfold resolveEntry.
  set (t := tryCandidates pkgDir _).
  assert (Hw : world_after (t w) = w) by apply tryCandidates_world.
  unfold bind, readdirSync.
  destruct (t w) as [[entry|e|c] w' tr]; simpl in *; subst w'; auto.
  destruct (Js.truthy entry); simpl.
  - destruct entry as [[|a s]|]; simpl; auto.
  - destruct (fs_readdirSync w pkgDir) as [e|files]; simpl; auto.
    destruct (List.find index_re_test files) as [idx|]; simpl.
    + destruct (path_join [pkgDir; idx]); reflexivity.
    + destruct entry as [[|a s]|]; reflexivity.
Qed.

Lemma resolveEntry_no_build pkgDir pkgJson pkgName cfg w :
  Forall (λ ev, is_build ev = false) (trace (resolveEntry pkgDir pkgJson pkgName cfg w)).
Proof.
  unfold resolveEntry.
  set (t := tryCandidates pkgDir _).
  assert (Hn : Forall (λ ev, is_build ev = false) (trace (t w)))
    by apply tryCandidates_no_build.
  unfold bind, readdirSync.
  destruct (t w) as [[entry|e|c] w' tr]; simpl in *; auto.
  destruct (Js.truthy entry); simpl.
  - destruct entry as [[|a s]|]; simpl; rewrite ?app_nil_r; auto.
  - destruct (fs_readdirSync _ pkgDir) as [e|files]; simpl.
    + apply Forall_app; split; [auto | repeat constructor].
    + destruct (List.find index_re_test files) as [idx|]; simpl.
      * destruct (path_join [pkgDir; idx]); simpl; rewrite ?app_nil_r;
          (apply Forall_app; split; [auto | repeat constructor]).
      * destruct entry as [[|a s]|]; simpl; rewrite ?app_nil_r;
          (apply Forall_app; split; [auto | repeat constructor]).
Qed.

Lemma no_build_elem l c : Forall (λ ev, is_build ev = false) l → EvBuild c ∉ l.
Proof.
  intros Hl Hc. rewrite Forall_forall in Hl. specialize (Hl _ Hc). discriminate.
Qed.

Lemma buildFormats_cons mk f rest :
  buildFormats mk (f :: rest) =
  (log [buildLine f (ic_configFile (mk f))];;
   build (mk f);;
   buildFormats mk rest).
Proof. reflexivity. Qed.

(** Every bundler call of the format loop is the call for one of the
    requested formats. *)
Lemma buildFormats_builds mk fmts w c :
  EvBuild c ∈ trace (buildFormats mk fmts w) → ∃ f, f ∈ fmts ∧ c = mk f.
Proof.
  revert w. induction fmts as [|f rest IH]; intros w.
  - intros H. inversion H.
  - rewrite buildFormats_cons.
    intros H. apply bind_event in H as [H|(_ & _ & H)].
    { apply list_elem_of_singleton in H. discriminate. }
    apply bind_event in H as [H|(_ & _ & H)].
    + exists f. split; [left|].
      unfold build in H. destruct (vite_build _ _) as [[e|] w'];
        apply list_elem_of_singleton in H; congruence.
    + destruct (IH _ H) as (f' & Hf & ->). exists f'. split; [right|]; auto.
Qed.

(** Every bundler call of [buildPackage] is made with the options object
    of lines 109-135 for the resolved entry and one requested format. *)
Lemma buildPackage_builds pkgDir pkgJson opts cfg w c :
  EvBuild c ∈ trace (buildPackage pkgDir pkgJson opts cfg w) →
  let pkgName := packageName pkgDir pkgJson in
  let outRoot := Js.or_else (o_outRoot opts)
                            (path_resolve [process_cwd; outRoot cfg]) in
  ∃ entry format configFilePath,
    res (resolveEntry pkgDir pkgJson pkgName cfg w) = Ok entry ∧
    format ∈ default (formats cfg) (o_formats opts) ∧
    c = viteOptions pkgDir entry (shortName pkgName)
                    (path_join [outRoot; outDirName (shortName pkgName)])
                    (collectExternals pkgJson cfg) configFilePath cfg format.
Proof.
  intros H pkgName outRoot. unfold buildPackage in H.
  apply bind_event in H as [H|(entry & He & H)].
  { exfalso. revert H. apply no_build_elem, resolveEntry_no_build. }
  apply bind_event in H as [H|(_ & _ & H)].
  { apply list_elem_of_singleton in H. discriminate. }
  apply bind_event in H as [H|(b & _ & H)].
  { apply list_elem_of_singleton in H. discriminate. }
  apply try_catch_event in H as [H|(e & _ & H)].
  - apply buildFormats_builds in H as (f & Hf & ->). eauto 10.
  - apply bind_event in H as [H|(_ & _ & H)].
    + apply list_elem_of_singleton in H. discriminate.
    + inversion H.
Qed.
End BuildFacts.

(** C1.  The external set of [buildPackage] is exactly the peer dependency
    names together with the regular dependency names on which the
    configured predicate returns true; it lists no name twice, every peer
    dependency name is in it whatever the predicate says, and it is the
    [external] list of every bundler call made for the package. *)
Theorem externals_are_peers_and_accepted_deps {World} `{!Env World}
        (pkgDir : string) (pkgJson : PkgJson) (opts : Opts) (cfg : BuildConfig)
        (w : World) :
  (∀ d, d ∈ collectExternals pkgJson cfg ↔
        d ∈ peerNames pkgJson ∨ (d ∈ depNames pkgJson ∧ Externalizes cfg d)) ∧
  NoDup (collectExternals pkgJson cfg) ∧
  (∀ d, d ∈ peerNames pkgJson → d ∈ collectExternals pkgJson cfg) ∧
  (∀ c, EvBuild c ∈ trace (buildPackage pkgDir pkgJson opts cfg w) →
        ro_external (bo_rollupOptions (ic_build c)) = collectExternals pkgJson cfg).
Proof.
  split; [apply collectExternals_elem|]. split; [|split].
  - unfold collectExternals. apply foldl_set_add_if_NoDup.
    apply (foldl_set_add_if_NoDup (λ _, true)). apply NoDup_nil_2.
  - intros d Hd. apply collectExternals_elem. auto.
  - intros c Hc.
    apply buildPackage_builds in Hc as (entry & format & cf & _ & _ & ->).
    reflexivity.
Qed.

Lemma externals_are_peers_and_accepted_deps_witness :
  "vue" ∈ collectExternals Fixture.fooJson config ∧
  "@lx/bar" ∉ collectExternals Fixture.fooJson config.
Proof.
  destruct (externals_are_peers_and_accepted_deps (Env0:=Fixture.env)
              "/repo/packages/foo" Fixture.fooJson Fixture.noOpts config Fixture.w0)
    as (Hiff & _ & Hpeer & _).
  split.
  - apply Hpeer. in_list.
  - intros H. apply Hiff in H. destruct H as [H | [_ (f & Hf & Hd)]].
    + not_in_list H.
    + inversion Hf; subst f. vm_compute in Hd. discriminate.
Defined.

Section EntryTheorems.
Context {World : Type} `{!Env World}.

Lemma present_nonempty w p : fs_existsSync w p = true → p ≠ EmptyString.
Proof. intros H ->. rewrite fs_existsSync_empty in H. discriminate. Qed.

(** A candidate found by the loop is the entry of the package. *)
Lemma resolveEntry_candidate pkgDir pkgJson pkgName cfg w p :
  res (tryCandidates pkgDir
         (pj_module pkgJson :: pj_main pkgJson :: (Some <$> entryFiles cfg)) w)
    = Ok (Some p) →
  fs_existsSync w p = true →
  resolveEntry pkgDir pkgJson pkgName cfg w =
  MkOut (Ok p) w
        (trace (tryCandidates pkgDir
                  (pj_module pkgJson :: pj_main pkgJson :: (Some <$> entryFiles cfg)) w)).
Proof.
  intros Hr Hp. apply present_nonempty in Hp.
  unfold resolveEntry.
  set (t := tryCandidates pkgDir _) in *.
  assert (Hw : world_after (t w) = w) by apply tryCandidates_world.
  unfold bind. destruct (t w) as [r w' tr]; simpl in *; subst.
  destruct p as [|a s]; [congruence|]. simpl. rewrite !app_nil_r. reflexivity.
Qed.

Lemma substring_full s : String.substring 0 (String.length s) s = s.
Proof. induction s as [|a s IH]; simpl; congruence. Qed.

(** The regular expression accepts exactly the five index file names. *)
Lemma index_re_test_spec f :
  index_re_test f = true ↔
  ∃ ext, ext ∈ ["ts"; "js"; "mjs"; "cjs"; "tsx"] ∧ f = "index." +:+ ext.
Proof.
  unfold index_re_test. split.
  - destruct (Js.startsWith f "index.") eqn:E; [|discriminate].
    apply startsWith_spec in E as [r ->]. simpl.
    rewrite Nat.sub_0_r, substring_full.
    intros H. apply bool_decide_eq_true in H. eauto.
  - intros (ext & Hext & ->).
    assert (E : Js.startsWith ("index." +:+ ext) "index." = true)
      by (apply startsWith_spec; exists ext; reflexivity).
    rewrite E. simpl. rewrite Nat.sub_0_r, substring_full.
    apply bool_decide_eq_true. exact Hext.
Qed.

Lemma find_absent {A} (f : A → bool) (l : list A) :
  (∀ x, x ∈ l → f x = false) → List.find f l = None.
Proof.
  induction l as [|a l IH]; simpl; [reflexivity|]. intros H.
  rewrite (H a) by left. apply IH. intros x Hx. apply H. right. exact Hx.
Qed.

(** C3.  Entry resolution walks [module], [main] and then the configured
    entry files in list order, each taken as it is when absolute and
    joined to the package directory otherwise, and yields the first
    candidate present on disk, having probed only the candidates before
    it; when none is present the loop yields nothing after probing them
    all.  In particular a [module] field naming a present file is the
    entry, found with a single probe of that path. *)
Theorem entry_candidates_in_order (pkgDir : string) (pkgJson : PkgJson)
        (cfg : BuildConfig) (w : World) :
  let cands := pj_module pkgJson :: pj_main pkgJson :: (Some <$> entryFiles cfg) in
  let pkgName := packageName pkgDir pkgJson in
  let o := tryCandidates pkgDir cands w in
  ((∃ before c after,
       cands = before ++ Some c :: after ∧
       c ≠ EmptyString ∧
       fs_existsSync w (candidatePath pkgDir c) = true ∧
       Missing w pkgDir before ∧
       res o = Ok (Some (candidatePath pkgDir c)) ∧
       trace o = probes pkgDir before ++ [EvExists (candidatePath pkgDir c)] ∧
       resolveEntry pkgDir pkgJson pkgName cfg w =
       MkOut (Ok (candidatePath pkgDir c)) w (trace o))
   ∨ (Missing w pkgDir cands ∧ res o = Ok None ∧ trace o = probes pkgDir cands)) ∧
  (∀ c, candidatePath pkgDir c =
        if path_isAbsolute c then c else path_join [pkgDir; c]) ∧
  (∀ m, pj_module pkgJson = Some m →
        m ≠ EmptyString →
        fs_existsSync w (candidatePath pkgDir m) = true →
        resolveEntry pkgDir pkgJson pkgName cfg w =
        MkOut (Ok (candidatePath pkgDir m)) w [EvExists (candidatePath pkgDir m)]).
Proof.
  intros cands pkgName o.
  assert (Hfirst :
    (∃ before c after,
       cands = before ++ Some c :: after ∧
       c ≠ EmptyString ∧
       fs_existsSync w (candidatePath pkgDir c) = true ∧
       Missing w pkgDir before ∧
       res o = Ok (Some (candidatePath pkgDir c)) ∧
       trace o = probes pkgDir before ++ [EvExists (candidatePath pkgDir c)] ∧
       resolveEntry pkgDir pkgJson pkgName cfg w =
       MkOut (Ok (candidatePath pkgDir c)) w (trace o))
    ∨ (Missing w pkgDir cands ∧ res o = Ok None ∧ trace o = probes pkgDir cands)).
  { destruct (tryCandidates_spec pkgDir cands w)
      as (_ & [(before & c & after & Hc & Hne & He & Hm & Hr & Ht) | Hnone]).
    - left. exists before, c, after.
      repeat split; auto. apply resolveEntry_candidate; auto.
    - right. exact Hnone. }
  split; [exact Hfirst|]. split; [reflexivity|].
  intros m Hm Hne Hex.
  destruct Hfirst as [(before & c & after & Hc & _ & _ & Hmiss & _ & Ht & Hres)
                     | (Hmiss & _)].
  - destruct before as [|b before].
    + simpl in Hc. unfold cands in Hc. rewrite Hm in Hc. inversion Hc; subst c.
      rewrite Hres, Ht. reflexivity.
    + exfalso. unfold cands in Hc. rewrite Hm in Hc. inversion Hc; subst b.
      rewrite (Hmiss m) in Hex; [discriminate | left | exact Hne].
  - exfalso. rewrite (Hmiss m) in Hex; [discriminate | | exact Hne].
    unfold cands. rewrite Hm. left.
Qed.

(** C5.  When [module], [main] and every configured entry file are
    missing on disk and the package directory lists none of index.ts,
    index.js, index.mjs, index.cjs, index.tsx, [buildPackage] throws the
    entry-not-found error, whose message names the package, its directory
    and the configured entry files, and the bundler is never called. *)
Theorem entry_not_found (pkgDir : string) (pkgJson : PkgJson) (opts : Opts)
        (cfg : BuildConfig) (w : World) (files : list string) :
  Missing w pkgDir (pj_module pkgJson :: pj_main pkgJson :: (Some <$> entryFiles cfg)) →
  fs_readdirSync w pkgDir = inr files →
  (∀ ext, ext ∈ ["ts"; "js"; "mjs"; "cjs"; "tsx"] → "index." +:+ ext ∉ files) →
  let o := buildPackage pkgDir pkgJson opts cfg w in
  res o = Throw (MkError ("Cannot find entry for package "
                          +:+ packageName pkgDir pkgJson +:+ " in " +:+ pkgDir
                          +:+ ". Please set " +:+ dquote +:+ "main" +:+ dquote
                          +:+ " or " +:+ dquote +:+ "module" +:+ dquote
                          +:+ " in package.json or add one of: "
                          +:+ Js.join (entryFiles cfg) ", ")) ∧
  world_after o = w ∧
  (∀ c, EvBuild c ∉ trace o).
Proof.
  intros Hmiss Hdir Hidx o.
  assert (Hfind : List.find index_re_test files = None).
  { apply find_absent. intros f Hf.
    destruct (index_re_test f) eqn:E; [|reflexivity].
    apply index_re_test_spec in E as (ext & Hext & ->).
    destruct (Hidx ext Hext Hf). }
  match goal with |- res o = Throw ?e ∧ _ => set (err := e) end.
  assert (Hres : ∃ tr, resolveEntry pkgDir pkgJson (packageName pkgDir pkgJson) cfg w
                       = MkOut (Throw err) w tr).
  { unfold resolveEntry.
    set (t := tryCandidates pkgDir _).
    destruct (tryCandidates_spec pkgDir
                (pj_module pkgJson :: pj_main pkgJson :: (Some <$> entryFiles cfg)) w)
      as (Hw & [(before & c & after & Hc & Hne & He & _) | (_ & Hr & _)]).
    - exfalso. rewrite (Hmiss c) in He; [discriminate | | exact Hne].
      rewrite Hc. apply elem_of_app. right. left.
    - fold t in Hw, Hr. unfold bind, readdirSync.
      destruct (t w) as [r w' tr]; simpl in *; subst r w'. simpl.
      rewrite Hdir. simpl. rewrite Hfind. simpl. eauto. }
  destruct Hres as [tr Hres].
  assert (Ho : o = MkOut (Throw err) w tr).
  { unfold o, buildPackage.
    erewrite bind_throw by (rewrite Hres; reflexivity).
    rewrite Hres. reflexivity. }
  rewrite Ho. simpl. repeat split.
  intros c Hc.
  pose proof (resolveEntry_no_build pkgDir pkgJson (packageName pkgDir pkgJson) cfg w) as Hn.
  rewrite Hres in Hn. simpl in Hn. revert Hc. apply no_build_elem, Hn.
Qed.
End EntryTheorems.

(** Case analysis on membership in an explicit list. *)
Ltac each_member H :=
  apply list_elem_of_In in H; vm_compute in H;
  repeat (destruct H as [H|H]; [try discriminate H; try (inversion H; subst)|]);
  try contradiction.

Lemma entry_candidates_in_order_witness :
  resolveEntry (Env0:=Fixture.env) "/repo/packages/foo" Fixture.fooJson "@lx/foo"
               config Fixture.w0 =
  MkOut (Ok "/repo/packages/foo/src/index.ts") Fixture.w0
        [EvExists "/repo/packages/foo/src/index.ts"].
Proof.
  destruct (entry_candidates_in_order (Env0:=Fixture.env) "/repo/packages/foo"
              Fixture.fooJson config Fixture.w0) as (_ & _ & H).
  apply (H "src/index.ts"); [reflexivity | discriminate | reflexivity].
Defined.

Lemma entry_not_found_witness :
  res (buildPackage (Env0:=Fixture.env) "/repo/packages/zed" Fixture.zedJson
                    Fixture.noOpts config Fixture.w0) =
  Throw (MkError ("Cannot find entry for package @lx/zed in /repo/packages/zed. Please set "
                  +:+ dquote +:+ "main" +:+ dquote +:+ " or " +:+ dquote +:+ "module"
                  +:+ dquote
                  +:+ " in package.json or add one of: index.ts, src/index.ts, src/index.tsx")).
Proof.
  apply (entry_not_found (Env0:=Fixture.env) "/repo/packages/zed" Fixture.zedJson
           Fixture.noOpts config Fixture.w0 ["README.md"; "package.json"]).
  - intros c Hc _. each_member Hc; reflexivity.
  - reflexivity.
  - intros ext Hext Hf. each_member Hext; not_in_list Hf.
Defined.

(** ** Output directory and file names *)

Section OutputFacts.
Context {World : Type} `{!Env World}.

Lemma shortName_spec n :
  ¬ Occurs "/" (shortName n) ∧
  (Occurs "/" n → ∃ pre, n = pre +:+ String "/" (shortName n)) ∧
  (¬ Occurs "/" n → shortName n = n).
Proof.
  unfold shortName.
  destruct (split_pop n "/") as (x & Hpop & Hx & Hn).
  destruct (Js.includes_char n "/") eqn:Hi.
  - rewrite Hpop. simpl. split; [apply includes_char_false, Hx|].
    split; [intros _; exact Hn|].
    intros Hno. apply includes_char_false in Hno. congruence.
  - split; [apply includes_char_false, Hi|].
    split; [|reflexivity].
    intros Ho. apply includes_char_spec in Ho. congruence.
Qed.

(** The second [replace] of line 65 never finds a '/'. *)
Lemma outDirName_shortName n :
  outDirName (shortName n) = Js.replace (shortName n) "@" EmptyString.
Proof.
  unfold outDirName. apply replace_absent, replace_delete_keeps.
  apply includes_char_false, shortName_spec.
Qed.

(** C9.  The short name is the text after the last '/' of the package
    name (the whole name when it has no '/'), so it has no '/'; every
    bundler call of [buildPackage] writes to the output root joined with
    the short name from which the '@' marker, the first '@' if there is
    one, is deleted, a directory name without any '/'; the call requests
    one of the formats and names the artifact of format f
    <shortName>.f.js. *)
Theorem output_location (pkgDir : string) (pkgJson : PkgJson) (opts : Opts)
        (cfg : BuildConfig) (w : World) (c : InlineConfig) :
  EvBuild c ∈ trace (buildPackage pkgDir pkgJson opts cfg w) →
  let n := packageName pkgDir pkgJson in
  let sn := shortName n in
  let root := Js.or_else (o_outRoot opts) (path_resolve [process_cwd; outRoot cfg]) in
  (¬ Occurs "/" sn ∧
   (Occurs "/" n → ∃ pre, n = pre +:+ String "/" sn) ∧
   (¬ Occurs "/" n → sn = n)) ∧
  (∃ dir, DeleteFirst "@" sn dir ∧ ¬ Occurs "/" dir ∧
          bo_outDir (ic_build c) = path_join [root; dir]) ∧
  (∃ format, format ∈ default (formats cfg) (o_formats opts) ∧
             lib_formats (bo_lib (ic_build c)) = [format] ∧
             ∀ f, lib_fileName (bo_lib (ic_build c)) f = sn +:+ "." +:+ f +:+ ".js").
Proof.
  intros H n sn root.
  apply buildPackage_builds in H as (entry & format & cf & _ & Hf & ->).
  split; [apply shortName_spec|]. split.
  - exists (Js.replace sn "@" EmptyString). split; [apply replace_delete_first|].
    split.
    + apply includes_char_false, replace_delete_keeps, includes_char_false, shortName_spec.
    + subst root sn n. rewrite <- outDirName_shortName. reflexivity.
  - exists format. simpl. auto.
Qed.
End OutputFacts.

Lemma output_location_witness :
  ∃ c, EvBuild c ∈ trace (buildPackage (Env0:=Fixture.env) "/repo/packages/foo"
                            Fixture.fooJson Fixture.noOpts config Fixture.w0) ∧
       bo_outDir (ic_build c) = "/repo/dist/foo" ∧
       lib_fileName (bo_lib (ic_build c)) "es" = "foo.es.js".
Proof.
  set (o := buildPackage (Env0:=Fixture.env) "/repo/packages/foo"
              Fixture.fooJson Fixture.noOpts config Fixture.w0).
  destruct (trace o !! 4) as [[| | | | | |c]|] eqn:E; try (vm_compute in E; discriminate E).
  assert (Hc : EvBuild c ∈ trace o) by (eapply list_elem_of_lookup_2; exact E).
  exists c. split; [exact Hc|].
  destruct (output_location (Env0:=Fixture.env) _ _ _ _ _ _ Hc)
    as (_ & (dir & Hdir & _ & Hout) & (format & _ & _ & Hname)).
  split.
  - vm_compute in E. inversion E. reflexivity.
  - rewrite Hname. reflexivity.
Defined.

(** ** Configuration loading *)

(** C7.  Without a path [loadConfig] returns the built-in configuration
    itself; with a path whose absolute form is missing on disk it throws
    "Config file not found: <path>"; and when the module at a present path
    fails to load it writes the failure to the error console and returns
    the built-in configuration. *)
Theorem loadConfig_cases {World} `{!Env World} (w : World) :
  loadConfig None w = MkOut (Ok config) w [] ∧
  (∀ p, p ≠ EmptyString →
        fs_existsSync w (configAbsPath p) = false →
        loadConfig (Some p) w =
        MkOut (Throw (MkError ("Config file not found: " +:+ configAbsPath p))) w
              [EvExists (configAbsPath p)]) ∧
  (∀ p e w', p ≠ EmptyString →
             fs_existsSync w (configAbsPath p) = true →
             import_default w (configAbsPath p) = (inl e, w') →
             loadConfig (Some p) w =
             MkOut (Ok config) w'
                   [EvExists (configAbsPath p); EvImport (configAbsPath p);
                    EvConsoleError ["Failed to load config:"; message e]]).
Proof.
  split; [reflexivity|]. split.
  - intros [|a s] Hne Hex; [congruence|].
    unfold loadConfig, bind, existsSync. fold (configAbsPath (String a s)).
    simpl. rewrite Hex. reflexivity.
  - intros [|a s] e w' Hne Hex Himp; [congruence|].
    unfold loadConfig, bind, existsSync, try_catch, importDefault.
    fold (configAbsPath (String a s)).
    simpl. rewrite Hex. simpl. rewrite Himp. reflexivity.
Qed.

Lemma loadConfig_cases_witness :
  loadConfig (Env0:=Fixture.env) (Some "missing.config.ts") Fixture.w0 =
  MkOut (Throw (MkError "Config file not found: /repo/missing.config.ts")) Fixture.w0
        [EvExists "/repo/missing.config.ts"] ∧
  loadConfig (Env0:=Fixture.env) (Some "broken.config.ts") Fixture.w0 =
  MkOut (Ok config) Fixture.w0
        [EvExists "/repo/broken.config.ts"; EvImport "/repo/broken.config.ts";
         EvConsoleError ["Failed to load config:"; "SyntaxError: Unexpected token"]].
Proof.
  destruct (loadConfig_cases (Env0:=Fixture.env) Fixture.w0) as (_ & Hmissing & Hbroken).
  split.
  - apply (Hmissing "missing.config.ts"); [discriminate | reflexivity].
  - apply (Hbroken "broken.config.ts" (MkError "SyntaxError: Unexpected token"));
      [discriminate | reflexivity | reflexivity].
Defined.

(** ** Single-component builds *)

(** C4.  The component directory card holds src/Card.vue and nothing
    else.  The entry check lists the component directory itself, not its
    src subdirectory, finds no name ending in .vue there, and throws the
    entry-not-found error although src/Card.vue is present. *)
Theorem component_entry_misses_src_vue :
  let w := Fixture.w0 in
  let compDir := "/repo/packages/components/card" in
  fs_existsSync (Env:=Fixture.env) w (compDir +:+ "/src/Card.vue") = true ∧
  fs_readdirSync (Env:=Fixture.env) w (compDir +:+ "/src") = inr ["Card.vue"] ∧
  componentEntry (Env0:=Fixture.env) "/repo/packages/components" "card" w =
  MkOut (Throw (MkError ("Cannot find entry for component card in " +:+ compDir))) w
        [EvExists compDir;
         EvExists (compDir +:+ "/index.ts");
         EvReaddir compDir;
         EvExists (compDir +:+ "/index.ts");
         EvExists (compDir +:+ "/src/index.ts");
         EvExists (compDir +:+ "/index.ts")].
Proof.
  repeat split; vm_compute; reflexivity.
Qed.

(** The entry found by the component check is not the one that is built:
    [buildPackage] resolves the entry again from the manifest-less
    descriptor, and a component whose only entry is src/Card.vue fails
    there. *)
Lemma component_entry_is_resolved_again :
  let w := Fixture.w_vue in
  res (componentEntry (Env0:=Fixture.env) "/repo/packages/components" "card" w) =
  Ok "/repo/packages/components/card/src/Card.vue" ∧
  res (buildSingleComponent (Env0:=Fixture.env) "/repo/packages/components" "card"
         Fixture.noOpts config w) =
  Throw (MkError ("Cannot find entry for package @lx/card in /repo/packages/components/card. Please set "
                  +:+ dquote +:+ "main" +:+ dquote +:+ " or " +:+ dquote +:+ "module"
                  +:+ dquote
                  +:+ " in package.json or add one of: index.ts, src/index.ts, src/index.tsx")).
Proof.
  split; vm_compute; reflexivity.
Qed.

(** ** Sequential, fail-fast builds *)

Section FailFast.
Context {World : Type} `{!Env World}.

Lemma buildFormats_fail mk f rest w e w' :
  vite_build w (mk f) = (Some e, w') →
  buildFormats mk (f :: rest) w =
  MkOut (Throw e) w' [EvLog [buildLine f (ic_configFile (mk f))]; EvBuild (mk f)].
Proof.
  intros Hb. rewrite buildFormats_cons.
  unfold bind, log, emit, build. simpl. rewrite Hb. reflexivity.
Qed.

Lemma buildFormats_next mk f rest w w' :
  vite_build w (mk f) = (None, w') →
  buildFormats mk (f :: rest) w =
  MkOut (res (buildFormats mk rest w')) (world_after (buildFormats mk rest w'))
        (EvLog [buildLine f (ic_configFile (mk f))] :: EvBuild (mk f)
         :: trace (buildFormats mk rest w')).
Proof.
  intros Hb. rewrite buildFormats_cons.
  unfold bind, log, emit, build. simpl. rewrite Hb. reflexivity.
Qed.

Lemma buildFormats_step mk f rest w :
  res (buildFormats mk (f :: rest) w) = Ok tt →
  ∃ w', vite_build w (mk f) = (None, w') ∧ res (buildFormats mk rest w') = Ok tt.
Proof.
  destruct (vite_build w (mk f)) as [[e|] w'] eqn:Hb.
  - rewrite (buildFormats_fail _ _ _ _ _ _ Hb). discriminate.
  - rewrite (buildFormats_next _ _ _ _ _ Hb). simpl. eauto.
Qed.

(** The loop over [l1 ++ l2] runs the loop over [l1] and, when that
    succeeds, continues with [l2] from the world it left. *)
Lemma buildFormats_app mk l1 l2 w :
  res (buildFormats mk l1 w) = Ok tt →
  let w1 := world_after (buildFormats mk l1 w) in
  buildFormats mk (l1 ++ l2) w =
  MkOut (res (buildFormats mk l2 w1)) (world_after (buildFormats mk l2 w1))
        (trace (buildFormats mk l1 w) ++ trace (buildFormats mk l2 w1)).
Proof.
  revert w. induction l1 as [|f l1 IH]; intros w Hok.
  - simpl. destruct (buildFormats mk l2 w); reflexivity.
  - destruct (buildFormats_step _ _ _ _ Hok) as (w' & Hb & Hok').
    change ((f :: l1) ++ l2) with (f :: (l1 ++ l2)).
    rewrite !(buildFormats_next _ _ _ _ _ Hb). simpl.
    rewrite (IH w' Hok'). reflexivity.
Qed.

(** A successful run of the loop calls the bundler once per format, in
    list order. *)
Lemma buildFormats_ok_builds mk l w :
  res (buildFormats mk l w) = Ok tt →
  List.filter is_build (trace (buildFormats mk l w)) = (λ f, EvBuild (mk f)) <$> l.
Proof.
  revert w. induction l as [|f l IH]; intros w Hok; [reflexivity|].
  destruct (buildFormats_step _ _ _ _ Hok) as (w' & Hb & Hok').
  rewrite (buildFormats_next _ _ _ _ _ Hb). simpl.
  rewrite IH by exact Hok'. reflexivity.
Qed.

(** [buildPackage] after a resolved entry: the two log/probe events, then
    the guarded format loop. *)
Lemma buildPackage_resolved pkgDir pkgJson opts cfg w entry :
  res (resolveEntry pkgDir pkgJson (packageName pkgDir pkgJson) cfg w) = Ok entry →
  let pkgName := packageName pkgDir pkgJson in
  let loop := try_catch (buildFormats (buildCall w pkgDir pkgJson opts cfg entry)
                                      (requestedFormats opts cfg))
                        (λ err, log ["Build failed for"; pkgName];; throw err) w in
  ∃ line,
    buildPackage pkgDir pkgJson opts cfg w =
    MkOut (res loop) (world_after loop)
          (trace (resolveEntry pkgDir pkgJson pkgName cfg w) ++
           EvLog line :: EvExists (path_join [pkgDir; "vite.config.ts"]) :: trace loop).
Proof.
  intros Hr pkgName loop. eexists.
  unfold buildPackage. fold pkgName.
  rewrite (bind_ok _ _ _ _ Hr).
  rewrite resolveEntry_world.
  unfold bind at 1 2, log, emit, existsSync. simpl.
  unfold loop, buildCall, requestedFormats. fold pkgName.
  destruct (fs_existsSync w (path_join [pkgDir; "vite.config.ts"])) eqn:E; reflexivity.
Qed.

Lemma last_after_two {A} (l1 : list A) x y l2 z :
  last (l1 ++ x :: y :: l2 ++ [z]) = Some z.
Proof.
  apply last_Some. exists (l1 ++ x :: y :: l2).
  rewrite <- app_assoc. reflexivity.
Qed.

Lemma filter_no_build l :
  Forall (λ ev, is_build ev = false) l → List.filter is_build l = [].
Proof.
  induction 1 as [|ev l Hev _ IH]; simpl; [reflexivity|]. rewrite Hev. exact IH.
Qed.

(** Formats are built one after the other; the first failing build ends
    the loop, the failure is logged with the package name and the
    bundler's error is rethrown as it is. *)
Lemma buildPackage_fail_fast pkgDir pkgJson opts cfg w entry done f rest e w' :
  let mk := buildCall w pkgDir pkgJson opts cfg entry in
  res (resolveEntry pkgDir pkgJson (packageName pkgDir pkgJson) cfg w) = Ok entry →
  requestedFormats opts cfg = done ++ f :: rest →
  res (buildFormats mk done w) = Ok tt →
  vite_build (world_after (buildFormats mk done w)) (mk f) = (Some e, w') →
  let o := buildPackage pkgDir pkgJson opts cfg w in
  res o = Throw e ∧
  world_after o = w' ∧
  List.filter is_build (trace o) = (λ f, EvBuild (mk f)) <$> (done ++ [f]) ∧
  last (trace o) = Some (EvLog ["Build failed for"; packageName pkgDir pkgJson]).
Proof.
  intros mk Hr Hf Hdone Hfail o.
  destruct (buildPackage_resolved pkgDir pkgJson opts cfg w entry Hr) as [line Ho].
  fold mk in Ho. rewrite Hf in Ho.
  pose proof (buildFormats_app mk done (f :: rest) w Hdone) as Happ.
  cbv zeta in Happ.
  rewrite (buildFormats_fail _ _ _ _ _ _ Hfail) in Happ. simpl in Happ.
  unfold try_catch in Ho. rewrite Happ in Ho. simpl in Ho.
  unfold o. rewrite Ho. cbn [res world_after trace].
  split; [reflexivity|]. split; [reflexivity|]. split.
  - rewrite List.filter_app.
    rewrite (filter_no_build _ (resolveEntry_no_build _ _ _ _ _)). simpl.
    rewrite !List.filter_app. rewrite (buildFormats_ok_builds _ _ _ Hdone).
    rewrite fmap_app. simpl. rewrite app_nil_r. reflexivity.
  - apply last_after_two.
Qed.

Lemma buildAll_cons d ds opts cfg :
  buildAll (d :: ds) opts cfg = (buildOne d opts cfg;; buildAll ds opts cfg).
Proof. reflexivity. Qed.

Lemma buildAll_app ds1 ds2 opts cfg w :
  res (buildAll ds1 opts cfg w) = Ok tt →
  let w1 := world_after (buildAll ds1 opts cfg w) in
  buildAll (ds1 ++ ds2) opts cfg w =
  MkOut (res (buildAll ds2 opts cfg w1)) (world_after (buildAll ds2 opts cfg w1))
        (trace (buildAll ds1 opts cfg w) ++ trace (buildAll ds2 opts cfg w1)).
Proof.
  revert w. induction ds1 as [|d ds1 IH]; intros w Hok.
  - simpl. destruct (buildAll ds2 opts cfg w); reflexivity.
  - change ((d :: ds1) ++ ds2) with (d :: (ds1 ++ ds2)).
    rewrite !buildAll_cons in *. unfold bind in *.
    destruct (buildOne d opts cfg w) as [[[]|e|c] w' tr]; simpl in *;
      try discriminate.
    rewrite (IH w' Hok). simpl. rewrite app_assoc. reflexivity.
Qed.

(** Packages are built one after the other; the first failing package
    ends the loop and nothing is done for the packages after it. *)
Lemma buildAll_fail_fast ds1 d ds2 opts cfg w e :
  res (buildAll ds1 opts cfg w) = Ok tt →
  let w1 := world_after (buildAll ds1 opts cfg w) in
  res (buildOne d opts cfg w1) = Throw e →
  let o := buildAll (ds1 ++ d :: ds2) opts cfg w in
  res o = Throw e ∧
  world_after o = world_after (buildOne d opts cfg w1) ∧
  trace o = trace (buildAll ds1 opts cfg w) ++ trace (buildOne d opts cfg w1).
Proof.
  intros Hok w1 Hd o. unfold o.
  rewrite (buildAll_app _ _ _ _ _ Hok). fold w1.
  rewrite buildAll_cons. rewrite (bind_throw _ _ _ _ Hd). simpl. auto.
Qed.

(** An all-packages run whose package loop throws ends with status 1
    after printing the error. *)
Lemma run_all_fail opts w cfg dirs e :
  Js.truthy (o_component opts) = false →
  Js.truthy (o_pkg opts) = false →
  res (loadConfig (o_config opts) w) = Ok cfg →
  let w1 := world_after (loadConfig (o_config opts) w) in
  fs_existsSync w1 packagesDirectory = true →
  res (discover packagesDirectory w1) = Ok dirs →
  let w2 := world_after (discover packagesDirectory w1) in
  res (buildAll dirs opts cfg w2) = Throw e →
  run opts w =
  MkOut (Ok 1%Z) (world_after (buildAll dirs opts cfg w2))
        (trace (loadConfig (o_config opts) w) ++ EvExists packagesDirectory
         :: trace (discover packagesDirectory w1)
         ++ trace (buildAll dirs opts cfg w2) ++ [EvConsoleError [message e]]).
Proof.
  intros Hc Hp Hcfg w1 Hex Hdisc w2 Hall.
  assert (Hmain : main opts w =
            MkOut (Throw e) (world_after (buildAll dirs opts cfg w2))
                  (trace (loadConfig (o_config opts) w) ++ EvExists packagesDirectory
                   :: trace (discover packagesDirectory w1)
                   ++ trace (buildAll dirs opts cfg w2))).
  { unfold main. fold packagesDirectory.
    rewrite (bind_ok _ _ _ _ Hcfg). fold w1.
    unfold bind at 1 2. rewrite existsSync_out. simpl. rewrite Hex. simpl.
    assert (Htail :
      (let* pkgDirs := discover packagesDirectory in
       buildAll pkgDirs opts cfg;; log ["All packages built"]) w1 =
      MkOut (Throw e) (world_after (buildAll dirs opts cfg w2))
            (trace (discover packagesDirectory w1) ++ trace (buildAll dirs opts cfg w2))).
    { rewrite (bind_ok _ _ _ _ Hdisc). fold w2.
      rewrite (bind_throw _ _ _ _ Hall). reflexivity. }
    destruct (o_component opts) as [[|? ?]|]; try discriminate Hc;
      destruct (o_pkg opts) as [[|? ?]|]; try discriminate Hp;
      rewrite Htail; reflexivity. }
  unfold run. rewrite Hmain. simpl. rewrite <- app_assoc. simpl.
  rewrite <- app_assoc. reflexivity.
Qed.
End FailFast.

(** C8, as stated, fails on one point: the failure that reaches the caller
    has no package name attached.  With a bundler that rejects the cjs
    format with the error "boom", [buildPackage] of "@lx/foo" rethrows
    exactly that error; the package name appears only in the log. *)
Lemma build_failure_is_rethrown_unchanged :
  let o := buildPackage (Env0:=Fixture.env) "/repo/packages/foo" Fixture.fooJson
                        Fixture.noOpts config Fixture.w_cjs in
  @packageName _ Fixture.env "/repo/packages/foo" Fixture.fooJson = "@lx/foo" ∧
  res o = Throw (MkError "boom") ∧
  Js.includes "boom" "@lx/foo" = false ∧
  last (trace o) = Some (EvLog ["Build failed for"; "@lx/foo"]).
Proof.
  repeat split; vm_compute; reflexivity.
Qed.

(** C8, amended.  The formats of a package are built one after the other:
    when the builds of the formats before [f] succeed and the build of [f]
    fails with [e], [buildPackage] has called the bundler for exactly those
    formats and [f], in order, logs "Build failed for <package name>" last,
    and rethrows [e] itself, unchanged.  In the package loop the first
    failing package ends the loop with its error and no event is produced
    for a later package.  An all-packages run whose loop throws prints the
    error and exits with status 1. *)
Theorem builds_are_sequential_and_fail_fast {World} `{!Env World} :
  (∀ pkgDir pkgJson opts cfg (w : World) entry done f rest e w',
     let mk := buildCall w pkgDir pkgJson opts cfg entry in
     res (resolveEntry pkgDir pkgJson (packageName pkgDir pkgJson) cfg w) = Ok entry →
     requestedFormats opts cfg = done ++ f :: rest →
     res (buildFormats mk done w) = Ok tt →
     vite_build (world_after (buildFormats mk done w)) (mk f) = (Some e, w') →
     let o := buildPackage pkgDir pkgJson opts cfg w in
     res o = Throw e ∧
     world_after o = w' ∧
     List.filter is_build (trace o) = (λ f, EvBuild (mk f)) <$> (done ++ [f]) ∧
     last (trace o) = Some (EvLog ["Build failed for"; packageName pkgDir pkgJson])) ∧
  (∀ ds1 d ds2 opts cfg (w : World) e,
     res (buildAll ds1 opts cfg w) = Ok tt →
     let w1 := world_after (buildAll ds1 opts cfg w) in
     res (buildOne d opts cfg w1) = Throw e →
     let o := buildAll (ds1 ++ d :: ds2) opts cfg w in
     res o = Throw e ∧
     world_after o = world_after (buildOne d opts cfg w1) ∧
     trace o = trace (buildAll ds1 opts cfg w) ++ trace (buildOne d opts cfg w1)) ∧
  (∀ opts (w : World) cfg dirs e,
     Js.truthy (o_component opts) = false →
     Js.truthy (o_pkg opts) = false →
     res (loadConfig (o_config opts) w) = Ok cfg →
     let w1 := world_after (loadConfig (o_config opts) w) in
     fs_existsSync w1 packagesDirectory = true →
     res (discover packagesDirectory w1) = Ok dirs →
     let w2 := world_after (discover packagesDirectory w1) in
     res (buildAll dirs opts cfg w2) = Throw e →
     run opts w =
     MkOut (Ok 1%Z) (world_after (buildAll dirs opts cfg w2))
           (trace (loadConfig (o_config opts) w) ++ EvExists packagesDirectory
            :: trace (discover packagesDirectory w1)
            ++ trace (buildAll dirs opts cfg w2) ++ [EvConsoleError [message e]])).
Proof.
  split; [|split].
  - intros. apply buildPackage_fail_fast with (rest := rest); assumption.
  - intros. apply buildAll_fail_fast; assumption.
  - intros. apply run_all_fail; assumption.
Qed.

Lemma builds_are_sequential_and_fail_fast_witness :
  let bar := buildPackage (Env0:=Fixture.env) "/repo/packages/bar" Fixture.barJson
                          Fixture.noOpts config Fixture.w_cjs in
  (res bar = Throw Fixture.boom ∧
   List.filter is_build (trace bar) =
   (λ f, EvBuild (buildCall (Env0:=Fixture.env) Fixture.w_cjs "/repo/packages/bar"
                            Fixture.barJson Fixture.noOpts config
                            "/repo/packages/bar/index.ts" f)) <$> ["es"; "cjs"]) ∧
  res (buildAll (Env0:=Fixture.env)
         ["/repo/packages/bar"; "/repo/packages/foo"; "/repo/packages/zed"]
         Fixture.noOpts config Fixture.w_cjs) = Throw Fixture.boom ∧
  res (run (Env0:=Fixture.env) Fixture.noOpts Fixture.w_cjs) = Ok 1%Z.
Proof.
  destruct (builds_are_sequential_and_fail_fast (Env0:=Fixture.env))
    as (Hformats & Hpackages & Hrun).
  split; [|split].
  - edestruct (Hformats "/repo/packages/bar" Fixture.barJson Fixture.noOpts config
                 Fixture.w_cjs "/repo/packages/bar/index.ts" ["es"] "cjs" ["umd"])
      as (Hres & _ & Hbuilds & _);
      [vm_compute; reflexivity | reflexivity | vm_compute; reflexivity
       | vm_compute; reflexivity |].
    split; [exact Hres | exact Hbuilds].
  - edestruct (Hpackages [] "/repo/packages/bar"
                 ["/repo/packages/foo"; "/repo/packages/zed"] Fixture.noOpts config
                 Fixture.w_cjs) as (Hres & _);
      [reflexivity | vm_compute; reflexivity |].
    exact Hres.
  - erewrite (Hrun Fixture.noOpts Fixture.w_cjs config
                ["/repo/packages/bar"; "/repo/packages/foo"; "/repo/packages/zed"]);
      [reflexivity | reflexivity | reflexivity | reflexivity | reflexivity
       | vm_compute; reflexivity | vm_compute; reflexivity].
Defined.

(** ** deepClone *)

Section CloneFacts.
Local Open Scope nat_scope.

(** Unfolding one reference. *)
Lemma reify_ref n h l t :
  reify (S n) h (VRef l) = Some t ↔
  (∃ time ps, h !! l = Some (ODate time ps) ∧ t = LDate l time ps.*1) ∨
  (∃ xs ps ts, h !! l = Some (OArray xs ps) ∧
               Forall2 (reify_elem n h) xs ts ∧ t = LArray l ts ps.*1) ∨
  (∃ ps pts, h !! l = Some (OPlain ProtoBuiltin ps) ∧ NoDup ps.*1 ∧
             Forall2 (λ kv kt, kt.1 = kv.1 ∧ reify n h kv.2 = Some kt.2) ps pts ∧
             t = LObject l pts).
Proof.
  simpl. destruct (h !! l) as [[time ps|xs ps|[| |p] ps]|] eqn:E.
  - split.
    + intros [= <-]. left. eauto.
    + intros [(? & ? & [= <- <-] & ->) | [(? & ? & ? & [=] & _) | (? & ? & [=] & _)]].
      reflexivity.
  - assert (Hm : ∀ ts,
              mapM (λ x, match x with
                         | Some x => reify n h x
                         | None => Some LHole
                         end) xs = Some ts ↔
              Forall2 (reify_elem n h) xs ts).
    { intros ts. rewrite mapM_Some.
      split; intros H; (eapply Forall2_impl; [exact H|]).
      - intros [x|] t'; simpl; [auto | intros [= <-]; reflexivity].
      - intros [x|] t'; simpl; [auto | intros ->; reflexivity]. }
    rewrite fmap_Some. setoid_rewrite Hm. split.
    + intros (ts & Hts & ->). right. left. eauto 10.
    + intros [(? & ? & [=] & _) | [(? & ? & ts & [= <- <-] & Hts & ->) | (? & ? & [=] & _)]].
      eauto.
  - assert (Hm : ∀ pts,
              mapM (λ kv, pair kv.1 <$> reify n h kv.2) ps = Some pts ↔
              Forall2 (λ kv kt, kt.1 = kv.1 ∧ reify n h kv.2 = Some kt.2) ps pts).
    { intros pts. rewrite mapM_Some.
      split; intros H; (eapply Forall2_impl; [exact H|]).
      - intros kv [k t']. rewrite fmap_Some. intros (t0 & Ht & [= -> ->]). auto.
      - intros [k x] [k' t']. simpl. intros [-> Ht]. rewrite Ht. reflexivity. }
    destruct (decide (NoDup ps.*1)) as [Hnd|Hnd].
    + rewrite fmap_Some. setoid_rewrite Hm. split.
      * intros (pts & Hpts & ->). right. right. eauto 10.
      * intros [(? & ? & [=] & _) | [(? & ? & ? & [=] & _)
                                    | (? & pts & [= <-] & _ & Hpts & ->)]].
        eauto.
    + split; [discriminate|].
      intros [(? & ? & [=] & _) | [(? & ? & ? & [=] & _) | (? & pts & [= <-] & Hnd' & _)]].
      contradiction.
  - split; [discriminate|].
    intros [(? & ? & [=] & _) | [(? & ? & ? & [=] & _) | (? & ? & [=] & _)]].
  - split; [discriminate|].
    intros [(? & ? & [=] & _) | [(? & ? & ? & [=] & _) | (? & ? & [=] & _)]].
  - split; [discriminate|].
    intros [(? & ? & [=] & _) | [(? & ? & ? & [=] & _) | (? & ? & [=] & _)]].
Qed.

Lemma reify_prim n h v : (∀ l, v ≠ VRef l) → reify n h v = Some (LPrim v).
Proof.
  intros H. destruct v as [| | | | | |l0], n; try reflexivity; destruct (H l0 eq_refl).
Qed.

Lemma reify_cases n h v t :
  reify n h v = Some t →
  (t = LPrim v ∧ ∀ l, v ≠ VRef l) ∨
  ∃ m l, n = S m ∧ v = VRef l ∧
    ((∃ time ps, h !! l = Some (ODate time ps) ∧ t = LDate l time ps.*1) ∨
     (∃ xs ps ts, h !! l = Some (OArray xs ps) ∧
                  Forall2 (reify_elem m h) xs ts ∧ t = LArray l ts ps.*1) ∨
     (∃ ps pts, h !! l = Some (OPlain ProtoBuiltin ps) ∧ NoDup ps.*1 ∧
                Forall2 (λ kv kt, kt.1 = kv.1 ∧ reify m h kv.2 = Some kt.2) ps pts ∧
                t = LObject l pts)).
Proof.
  intros H. destruct v as [| | | | | |l].
  1-6: destruct n; simpl in H; injection H as <-; left;
    (split; [reflexivity | discriminate]).
  destruct n as [|m]; [discriminate H|].
  right. exists m, l. split; [reflexivity|]. split; [reflexivity|].
  apply reify_ref, H.
Qed.

Lemma elem_of_concat_fmap {A B} (f : A → list B) (ts : list A) (x : B) :
  x ∈ concat (f <$> ts) ↔ ∃ t, t ∈ ts ∧ x ∈ f t.
Proof.
  induction ts as [|t ts IH]; simpl.
  - split; [intros H; inversion H | intros (t & H & _); inversion H].
  - rewrite elem_of_app, IH. split.
    + intros [H|(t' & Ht & H)]; [exists t; split; [left|exact H] | exists t'; split; [right|]; auto].
    + intros (t' & Ht & H). apply elem_of_cons in Ht as [->|Ht]; eauto.
Qed.

(** Every object met while unfolding is in the store. *)
Lemma reify_bound n h v t l :
  reify n h v = Some t → l ∈ locs t → l < length h.
Proof.
  revert v t l. induction n as [|n IH]; intros v t l H Hl;
    apply reify_cases in H
      as [[-> _] | (m & l0 & Hn & -> & [(time & ps & Hh & ->)
                                       | [(xs & ps & ts & Hh & Hts & ->)
                                         | (ps & pts & Hh & _ & Hpts & ->)]])];
    try discriminate Hn; try (inversion Hl; fail).
  - apply list_elem_of_singleton in Hl as ->. eapply lookup_lt_Some, Hh.
  - injection Hn as <-. simpl in Hl. apply elem_of_cons in Hl as [->|Hl].
    { eapply lookup_lt_Some, Hh. }
    apply elem_of_concat_fmap in Hl as (tx & Htx & Hl).
    clear Hh. induction Hts as [|x tx' xs ts Hx _ IHts]; [inversion Htx|].
    apply elem_of_cons in Htx as [->|Htx]; [|auto].
    destruct x as [x|]; simpl in Hx; [eapply IH; eauto | subst tx'; inversion Hl].
  - injection Hn as <-. simpl in Hl. apply elem_of_cons in Hl as [->|Hl].
    { eapply lookup_lt_Some, Hh. }
    apply elem_of_concat_fmap in Hl as (kt & Hkt & Hl).
    clear Hh. induction Hpts as [|kv kt' ps pts [_ Hx] _ IHpts]; [inversion Hkt|].
    apply elem_of_cons in Hkt as [->|Hkt]; [eapply IH; eauto | auto].
Qed.

(** Unfolding reads only the objects it meets. *)
Lemma reify_footprint n h h2 v t :
  reify n h v = Some t →
  (∀ l, l ∈ locs t → h2 !! l = h !! l) →
  reify n h2 v = Some t.
Proof.
  revert v t. induction n as [|n IH]; intros v t H Hfp;
    apply reify_cases in H
      as [[-> Hv] | (m & l0 & Hn & -> & [(time & ps & Hh & ->)
                                        | [(xs & ps & ts & Hh & Hts & ->)
                                          | (ps & pts & Hh & Hnd & Hpts & ->)]])];
    try discriminate Hn; try (apply reify_prim, Hv); injection Hn as <-;
    apply reify_ref.
  - left. exists time, ps. rewrite Hfp by left. auto.
  - right. left. exists xs, ps, ts. rewrite Hfp by left.
    split; [exact Hh|]. split; [|reflexivity].
    assert (Hsub : ∀ tx, tx ∈ ts → ∀ l, l ∈ locs tx → h2 !! l = h !! l).
    { intros tx Htx l Hl. apply Hfp. simpl. right. apply elem_of_concat_fmap. eauto. }
    clear Hh Hfp. induction Hts as [|x tx xs ts Hx _ IHts]; constructor.
    + destruct x as [x|]; simpl in *; [|exact Hx].
      apply IH; [exact Hx|]. apply Hsub. left.
    + apply IHts. intros tx' Htx'. apply Hsub. right. exact Htx'.
  - right. right. exists ps, pts. rewrite Hfp by left.
    split; [exact Hh|]. split; [exact Hnd|]. split; [|reflexivity].
    assert (Hsub : ∀ kt, kt ∈ pts → ∀ l, l ∈ locs kt.2 → h2 !! l = h !! l).
    { intros kt Hkt l Hl. apply Hfp. simpl. right.
      apply (elem_of_concat_fmap (λ kt, locs kt.2)). eauto. }
    clear Hh Hfp Hnd. induction Hpts as [|kv kt ps pts [Hk Hx] _ IHpts]; constructor.
    + split; [exact Hk|]. apply IH; [exact Hx|]. apply Hsub. left.
    + apply IHpts. intros kt' Hkt'. apply Hsub. right. exact Hkt'.
Qed.

Lemma Forall2_right {A B} (P : A → B → Prop) (Q : B → Prop) l k :
  Forall2 P l k → (∀ x y, P x y → Q y) → ∀ y, y ∈ k → Q y.
Proof.
  intros H HPQ. induction H as [|x y l k Hxy _ IH]; intros y' Hy'.
  - inversion Hy'.
  - apply elem_of_cons in Hy' as [->|Hy']; eauto.
Qed.


Lemma deepClone_prim n v h :
  (∀ l, v ≠ VRef l) → deepClone n v h = Some (Returns v h).
Proof.
  intros H. destruct v as [| | | | | |l0], n; try reflexivity; destruct (H l0 eq_refl).
Qed.

Lemma get_own_None ps key : get_own ps key = None ↔ key ∉ ps.*1.
Proof.
  induction ps as [|[k v] ps IH]; simpl.
  - split; [intros _ H; inversion H | reflexivity].
  - rewrite not_elem_of_cons. destruct (decide (k = key)) as [->|Hne].
    + split; [discriminate | intros [H _]; destruct (H eq_refl)].
    + rewrite IH. split; [intros H; split; [congruence | exact H] | intros [_ H]; exact H].
Qed.

Lemma method_inherited ps name inh : name ∉ ps.*1 → method ps name inh = inh.
Proof. intros H. unfold method. apply get_own_None in H. rewrite H. reflexivity. Qed.

Lemma elems_set_end xs v : elems_set xs (length xs) v = xs ++ [Some v].
Proof.
  unfold elems_set. destruct (decide (length xs < length xs)) as [H|_]; [lia|].
  rewrite Nat.sub_diag. reflexivity.
Qed.

Lemma props_set_new ps key v : key ∉ ps.*1 → props_set ps key v = ps ++ [(key, v)].
Proof. unfold props_set. intros H. destruct (decide (key ∈ ps.*1)); [contradiction | reflexivity]. Qed.

Lemma NoDup_concat_snoc (ls : list (list nat)) (l : list nat) (b : nat) :
  NoDup (concat ls) → NoDup l →
  (∀ x, x ∈ concat ls → x < b) → (∀ x, x ∈ l → b ≤ x) →
  NoDup (concat (ls ++ [l])).
Proof.
  intros Hls Hl Hlt Hge. rewrite concat_app. simpl. rewrite app_nil_r.
  apply NoDup_app. split; [exact Hls|]. split; [|exact Hl].
  intros x Hx Hx'. specialize (Hlt x Hx). specialize (Hge x Hx'). lia.
Qed.

(** The loop over the elements, on a clonable array that unfolds. *)
Lemma cloneElems_tree n h dst :
  clone_tree n → length h ≤ dst →
  ∀ xs ts hc done dts ps,
    (∀ l, l < length h → hc !! l = h !! l) →
    hc !! dst = Some (OArray (Some <$> done) ps) →
    Forall2 (reify_elem n h) xs ts →
    forallb clonable ts = true →
    Forall2 (λ v t, reify n hc v = Some t ∧ ∀ l, l ∈ locs t → dst < l) done dts →
    NoDup (concat (locs <$> dts)) →
    ∃ (hf : heap) (vs : list value) (nts : list ltree),
      cloneElems (deepClone n) dst (length done) xs hc = Some (Returns tt hf) ∧
      (∀ l, l < length h → hf !! l = h !! l) ∧
      length hc ≤ length hf ∧
      hf !! dst = Some (OArray (Some <$> (done ++ vs)) ps) ∧
      Forall2 (λ v t, reify n hf v = Some t ∧ ∀ l, l ∈ locs t → dst < l)
              (done ++ vs) (dts ++ nts) ∧
      erase <$> nts = copied <$> (erase <$> ts) ∧
      NoDup (concat (locs <$> (dts ++ nts))).
Proof.
  intros IH Hdst xs. induction xs as [|x xs IHxs];
    intros ts hc done dts ps Hag Hd Hts Hcl Hdone Hnd.
  - apply Forall2_nil_inv_l in Hts as ->. exists hc, [], [].
    rewrite !app_nil_r. auto 10.
  - apply Forall2_cons_inv_l in Hts as (tx & ts' & Hx & Hts & ->).
    simpl in Hcl. apply andb_prop in Hcl as [Hcx Hcl].
    assert (Hlt : dst < length hc) by (eapply lookup_lt_Some, Hd).
    assert (Hrx : ∃ tr, reify n hc (read_elem x) = Some tr ∧ clonable tr = true ∧
                        copied (erase tr) = copied (erase tx)).
    { destruct x as [x|]; simpl in Hx.
      - exists tx. split; [|auto].
        eapply reify_footprint; [exact Hx|]. intros l Hl. apply Hag.
        eapply reify_bound; eauto.
      - subst tx. exists (LPrim VUndefined). split; [|auto].
        apply reify_prim. discriminate. }
    destruct Hrx as (tr & Hx' & Hctr & Hshape).
    destruct (IH (read_elem x) hc tr Hx' Hctr)
      as (v' & h' & t' & Hc & Hag' & Hlen & Hr & He & Hfresh & Hnd').
    assert (Hd' : h' !! dst = Some (OArray (Some <$> done) ps)) by (rewrite Hag'; auto).
    set (hc2 := <[dst := OArray (Some <$> (done ++ [v'])) ps]> h').
    assert (Hstore : array_store h' dst (length done) v' = hc2).
    { unfold array_store. rewrite Hd'.
      replace (length done) with (length (Some <$> done)) by apply length_fmap.
      rewrite elems_set_end. unfold hc2. rewrite fmap_app. reflexivity. }
    assert (Hother : ∀ l, l ≠ dst → hc2 !! l = h' !! l).
    { intros l Hl. unfold hc2. apply list_lookup_insert_ne. auto. }
    destruct (IHxs ts' hc2 (done ++ [v']) (dts ++ [t']) ps)
      as (hf & vs & nts & Hloop & Hagf & Hlenf & Hdf & Hall & Hef & Hndf).
    + intros l Hl. rewrite Hother by lia. rewrite Hag' by lia. auto.
    + unfold hc2. apply list_lookup_insert_eq. lia.
    + exact Hts.
    + exact Hcl.
    + apply Forall2_app.
      * eapply Forall2_impl; [exact Hdone|]. intros v t [Hv Hl]. split; [|exact Hl].
        eapply reify_footprint; [exact Hv|]. intros l Hin.
        rewrite Hother by (specialize (Hl l Hin); lia).
        apply Hag'. eapply reify_bound; eauto.
      * constructor; [|constructor]. split.
        -- eapply reify_footprint; [exact Hr|]. intros l Hin.
           apply Hother. specialize (Hfresh l Hin). lia.
        -- intros l Hin. specialize (Hfresh l Hin). lia.
    + rewrite fmap_app. simpl.
      apply (NoDup_concat_snoc _ _ (length hc)); [exact Hnd | exact Hnd' | | exact Hfresh].
      intros l Hl. apply elem_of_concat_fmap in Hl as (t & Ht & Hl).
      revert l Hl. revert t Ht.
      apply (Forall2_right _ (λ t, ∀ l, l ∈ locs t → l < length hc) _ _ Hdone).
      intros v t [Hv _] l Hl. eapply reify_bound; eauto.
    + exists hf, (v' :: vs), (t' :: nts).
      simpl. rewrite Hc, Hstore.
      rewrite length_app in Hloop. simpl in Hloop. rewrite Nat.add_1_r in Hloop.
      repeat rewrite <- app_assoc in Hdf. repeat rewrite <- app_assoc in Hall.
      repeat rewrite <- app_assoc in Hndf.
      simpl in Hdf, Hall, Hndf.
      unfold hc2 in Hlenf. rewrite length_insert in Hlenf.
      split; [exact Hloop|]. split; [exact Hagf|]. split; [lia|].
      split; [exact Hdf|]. split; [exact Hall|].
      split; [f_equal; [rewrite He; exact Hshape | exact Hef] | exact Hndf].
Qed.

(** The loop over the properties, on a clonable plain object that
    unfolds. *)
Lemma cloneProps_tree n h dst :
  clone_tree n → length h ≤ dst →
  ∀ ps pts hc done dts,
    (∀ l, l < length h → hc !! l = h !! l) →
    hc !! dst = Some (OPlain ProtoBuiltin done) →
    NoDup (done.*1 ++ ps.*1) →
    "__proto__" ∉ ps.*1 →
    Forall2 (λ kv kt, kt.1 = kv.1 ∧ reify n h kv.2 = Some kt.2) ps pts →
    forallb (λ kt, clonable kt.2) pts = true →
    Forall2 (λ kv kt, kt.1 = kv.1 ∧ reify n hc kv.2 = Some kt.2 ∧
                      ∀ l, l ∈ locs kt.2 → dst < l) done dts →
    NoDup (concat ((λ kt, locs kt.2) <$> dts)) →
    ∃ (hf : heap) (vs : list (string * value)) (nts : list (string * ltree)),
      cloneProps (deepClone n) Builtin dst ps hc = Some (Returns tt hf) ∧
      (∀ l, l < length h → hf !! l = h !! l) ∧
      length hc ≤ length hf ∧
      hf !! dst = Some (OPlain ProtoBuiltin (done ++ vs)) ∧
      (done ++ vs).*1 = done.*1 ++ ps.*1 ∧
      Forall2 (λ kv kt, kt.1 = kv.1 ∧ reify n hf kv.2 = Some kt.2 ∧
                        ∀ l, l ∈ locs kt.2 → dst < l)
              (done ++ vs) (dts ++ nts) ∧
      (λ kt, (kt.1, erase kt.2)) <$> nts
        = (λ kt, (kt.1, copied kt.2)) <$> ((λ kt, (kt.1, erase kt.2)) <$> pts) ∧
      NoDup (concat ((λ kt, locs kt.2) <$> (dts ++ nts))).
Proof.
  intros IH Hdst ps. induction ps as [|[key x] ps IHps];
    intros pts hc done dts Hag Hd Hnd Hpr Hpts Hcl Hdone Hndl.
  - apply Forall2_nil_inv_l in Hpts as ->. exists hc, [], [].
    rewrite !app_nil_r. auto 10.
  - apply Forall2_cons_inv_l in Hpts as ([k tx] & pts' & [Hk Hx] & Hpts & ->).
    simpl in Hk, Hx. subst k.
    simpl in Hcl. apply andb_prop in Hcl as [Hcx Hcl].
    simpl in Hpr. apply not_elem_of_cons in Hpr as [Hkp Hpr].
    assert (Hlt : dst < length hc) by (eapply lookup_lt_Some, Hd).
    assert (Hx' : reify n hc x = Some tx).
    { eapply reify_footprint; [exact Hx|]. intros l Hl. apply Hag.
      eapply reify_bound; eauto. }
    destruct (IH x hc tx Hx' Hcx)
      as (v' & h' & t' & Hc & Hag' & Hlen & Hr & He & Hfresh & Hnd').
    assert (Hd' : h' !! dst = Some (OPlain ProtoBuiltin done)) by (rewrite Hag'; auto).
    assert (Hkey : key ∉ done.*1).
    { apply NoDup_app in Hnd as (_ & Hdisj & _). intros Hin.
      apply (Hdisj key Hin). left. }
    set (hc2 := <[dst := OPlain ProtoBuiltin (done ++ [(key, v')])]> h').
    assert (Hstore : prop_store h' dst key v' = inr hc2).
    { unfold prop_store. rewrite Hd'.
      destruct (decide (key = "__proto__" ∧ key ∉ done.*1)) as [[Heq _]|_];
        [congruence|].
      rewrite props_set_new by exact Hkey. reflexivity. }
    assert (Hother : ∀ l, l ≠ dst → hc2 !! l = h' !! l).
    { intros l Hl. unfold hc2. apply list_lookup_insert_ne. auto. }
    destruct (IHps pts' hc2 (done ++ [(key, v')]) (dts ++ [(key, t')]))
      as (hf & vs & nts & Hloop & Hagf & Hlenf & Hdf & Hkeys & Hall & Hef & Hndf).
    + intros l Hl. rewrite Hother by lia. rewrite Hag' by lia. auto.
    + unfold hc2. apply list_lookup_insert_eq. lia.
    + rewrite fmap_app, <- app_assoc. exact Hnd.
    + exact Hpr.
    + exact Hpts.
    + exact Hcl.
    + apply Forall2_app.
      * eapply Forall2_impl; [exact Hdone|]. intros kv kt (Hkk & Hv & Hl).
        split; [exact Hkk|]. split; [|exact Hl].
        eapply reify_footprint; [exact Hv|]. intros l Hin.
        rewrite Hother by (specialize (Hl l Hin); lia).
        apply Hag'. eapply reify_bound; eauto.
      * constructor; [|constructor]. split; [reflexivity|]. split.
        -- eapply reify_footprint; [exact Hr|]. intros l Hin.
           apply Hother. specialize (Hfresh l Hin). lia.
        -- intros l Hin. specialize (Hfresh l Hin). lia.
    + rewrite fmap_app. simpl.
      apply (NoDup_concat_snoc _ _ (length hc)); [exact Hndl | exact Hnd' | | exact Hfresh].
      intros l Hl. apply (elem_of_concat_fmap (λ kt, locs kt.2)) in Hl as (t & Ht & Hl).
      revert l Hl. revert t Ht.
      apply (Forall2_right _ (λ kt, ∀ l, l ∈ locs kt.2 → l < length hc) _ _ Hdone).
      intros kv kt (_ & Hv & _) l Hl. eapply reify_bound; eauto.
    + exists hf, ((key, v') :: vs), ((key, t') :: nts).
      simpl. rewrite Hc, Hstore.
      repeat rewrite <- app_assoc in Hdf. repeat rewrite <- app_assoc in Hall.
      repeat rewrite <- app_assoc in Hndf.
      simpl in Hdf, Hall, Hndf.
      rewrite !fmap_app in Hkeys. simpl in Hkeys.
      repeat rewrite <- app_assoc in Hkeys. simpl in Hkeys.
      unfold hc2 in Hlenf. rewrite length_insert in Hlenf.
      split; [exact Hloop|]. split; [exact Hagf|]. split; [lia|].
      split; [exact Hdf|]. split; [rewrite fmap_app; exact Hkeys|].
      split; [exact Hall|].
      split; [f_equal; [f_equal; exact He | exact Hef] | exact Hndf].
Qed.

Lemma deepClone_tree n : clone_tree n.
Proof.
  induction n as [|n IH]; intros v h t H Hcl;
    apply reify_cases in H as Hc;
    destruct Hc as [[-> Hv] | (m & l0 & Hn & -> & [(time & ps & Hh & ->)
                                                  | [(xs & ps & ts & Hh & Hts & ->)
                                                    | (ps & pts & Hh & Hnd & Hpts & ->)]])];
    try discriminate Hn;
    try (exists v, h, (LPrim v); rewrite deepClone_prim by exact Hv;
         repeat split; auto; try constructor; intros l Hl; inversion Hl).
  - (* Date *)
    injection Hn as <-. clear H. simpl in Hcl. apply bool_decide_eq_true in Hcl.
    exists (VRef (length h)), (h ++ [ODate time []]), (LDate (length h) time []).
    simpl. rewrite Hh. rewrite (method_inherited _ _ _ Hcl). simpl.
    split; [reflexivity|]. split.
    { intros l Hl. apply lookup_app_l. exact Hl. }
    split; [rewrite length_app; lia|]. split.
    { rewrite list_lookup_middle by reflexivity. reflexivity. }
    split; [reflexivity|]. split.
    { intros l Hl. apply list_elem_of_singleton in Hl as ->. lia. }
    apply NoDup_singleton.
  - (* Array *)
    injection Hn as <-. clear H. simpl in Hcl.
    destruct (cloneElems_tree n h (length h) IH (Nat.le_refl _) xs ts
                (h ++ [OArray [] []]) [] [] [])
      as (hf & vs & nts & Hloop & Hag & Hlen & Hd & Hall & He & Hndl).
    { intros l Hl. apply lookup_app_l. exact Hl. }
    { apply list_lookup_middle. reflexivity. }
    { exact Hts. }
    { exact Hcl. }
    { constructor. }
    { constructor. }
    simpl in Hloop, Hd, Hall, Hndl.
    assert (Hgt : ∀ l, l ∈ concat (locs <$> nts) → length h < l).
    { intros l Hl. apply elem_of_concat_fmap in Hl as (tx & Htx & Hl).
      revert l Hl. revert tx Htx.
      apply (Forall2_right _ (λ t, ∀ l, l ∈ locs t → length h < l) _ _ Hall).
      intros ? ? [_ ?]. auto. }
    exists (VRef (length h)), hf, (LArray (length h) nts []).
    split; [simpl; rewrite Hh; simpl; rewrite Hloop; reflexivity|].
    split; [exact Hag|].
    split; [rewrite length_app in Hlen; simpl in Hlen; lia|].
    split.
    { apply reify_ref. right. left. exists (Some <$> vs), [], nts. split; [exact Hd|].
      split; [|reflexivity]. apply Forall2_fmap_l.
      eapply Forall2_impl; [exact Hall|]. intros ? ? [? _]. auto. }
    split; [simpl; f_equal; exact He|]. split.
    { intros l Hl. simpl in Hl. apply elem_of_cons in Hl as [->|Hl]; [lia|].
      specialize (Hgt l Hl). lia. }
    simpl. apply NoDup_cons. split; [|exact Hndl].
    intros Hin. specialize (Hgt _ Hin). lia.
  - (* Plain object *)
    injection Hn as <-. clear H. simpl in Hcl.
    apply andb_prop in Hcl as [Hcl Hcl3]. apply andb_prop in Hcl as [Hcl1 Hcl2].
    apply bool_decide_eq_true in Hcl1, Hcl2.
    assert (Hkeys0 : pts.*1 = ps.*1).
    { clear -Hpts. induction Hpts as [|kv kt ps pts [Hk _] _ IHp]; [reflexivity|].
      simpl. f_equal; auto. }
    rewrite Hkeys0 in Hcl1, Hcl2.
    destruct (cloneProps_tree n h (length h) IH (Nat.le_refl _) ps pts
                (h ++ [OPlain ProtoBuiltin []]) [] [])
      as (hf & vs & nts & Hloop & Hag & Hlen & Hd & Hkeys & Hall & He & Hndl).
    { intros l Hl. apply lookup_app_l. exact Hl. }
    { apply list_lookup_middle. reflexivity. }
    { exact Hnd. }
    { exact Hcl2. }
    { exact Hpts. }
    { exact Hcl3. }
    { constructor. }
    { constructor. }
    simpl in Hloop, Hd, Hall, Hkeys, Hndl.
    assert (Hgt : ∀ l, l ∈ concat ((λ kt, locs kt.2) <$> nts) → length h < l).
    { intros l Hl.
      apply (elem_of_concat_fmap (λ kt, locs kt.2)) in Hl as (tx & Htx & Hl).
      revert l Hl. revert tx Htx.
      apply (Forall2_right _ (λ kt, ∀ l, l ∈ locs kt.2 → length h < l) _ _ Hall).
      intros ? ? (_ & _ & ?). auto. }
    exists (VRef (length h)), hf, (LObject (length h) nts).
    split.
    { simpl. rewrite Hh. simpl. rewrite (method_inherited _ _ _ Hcl1), Hloop. reflexivity. }
    split; [exact Hag|].
    split; [rewrite length_app in Hlen; simpl in Hlen; lia|].
    split.
    { apply reify_ref. right. right. exists vs, nts. split; [exact Hd|].
      split; [rewrite Hkeys; exact Hnd|].
      split; [|reflexivity]. eapply Forall2_impl; [exact Hall|]. intros ? ? (? & ? & _). auto. }
    split; [simpl; f_equal; exact He|]. split.
    { intros l Hl. simpl in Hl. apply elem_of_cons in Hl as [->|Hl]; [lia|].
      specialize (Hgt l Hl). lia. }
    simpl. apply NoDup_cons. split; [|exact Hndl].
    intros Hin. specialize (Hgt _ Hin). lia.
Qed.



















(** X18. [deepClone] does not preserve sharing: the copy of a clonable
    value that unfolds within the recursion depth is a tree.  Every object
    of the copy was allocated by the call, and none of them is met twice
    when the copy is unfolded, so an object referenced from two places of
    the input is copied once per place. *)
Theorem deepClone_copy_is_a_tree (n : nat) (v : value) (h : heap) (t : ltree) :
  reify n h v = Some t → clonable t = true →
  ∃ (v' : value) (h' : heap) (t' : ltree),
    deepClone n v h = Some (Returns v' h') ∧
    reify n h' v' = Some t' ∧
    erase t' = copied (erase t) ∧
    NoDup (locs t') ∧
    (∀ l, l ∈ locs t' → length h ≤ l < length h').
Proof.
  intros H Hcl.
  destruct (deepClone_tree n v h t H Hcl)
    as (v' & h' & t' & Hc & _ & _ & Hr & He & Hfresh & Hnd).
  exists v', h', t'. repeat split; auto.
  eapply reify_bound; eauto.
Qed.

Lemma deepClone_copy_is_a_tree_witness :
  reify 2 sharedHeap (VRef 1)
    = Some (LArray 1 [LObject 0 [("n", LPrim (VNumber 1))];
                      LObject 0 [("n", LPrim (VNumber 1))]] []) ∧
  ∃ (v' : value) (h' : heap) (t' : ltree),
    deepClone 2 (VRef 1) sharedHeap = Some (Returns v' h') ∧
    reify 2 h' v' = Some t' ∧
    erase t' = TArray [TObject [("n", TPrim (VNumber 1))];
                       TObject [("n", TPrim (VNumber 1))]] [] ∧
    NoDup (locs t') ∧
    (∀ l, l ∈ locs t' → length sharedHeap ≤ l < length h').
Proof.
  split; [vm_compute; reflexivity|].
  apply (deepClone_copy_is_a_tree 2 (VRef 1) sharedHeap
           (LArray 1 [LObject 0 [("n", LPrim (VNumber 1))];
                      LObject 0 [("n", LPrim (VNumber 1))]] []));
    vm_compute; reflexivity.
Defined.

End CloneFacts.

(** * Further properties of the build script *)

(** ** Command-line parsing *)

(** Decide one comparison of the flag chain. *)
Ltac flag_case a lit H :=
  destruct (String.eqb_spec a lit) as [->|?];
  [try (exfalso; apply H; in_list) | ].

Lemma parseArgsFrom_other token rest opts :
  token ∉ recognisedFlags →
  parseArgsFrom (token :: rest) opts = parseArgsFrom rest opts.
Proof.
  intros H. simpl.
  flag_case token "--pkg" H. flag_case token "-p" H.
  flag_case token "--component" H. flag_case token "-c" H.
  flag_case token "--formats" H. flag_case token "-f" H.
  flag_case token "--out" H. flag_case token "-o" H.
  flag_case token "--config" H.
  flag_case token "--help" H. flag_case token "-h" H.
  reflexivity.
Qed.

Lemma parseArgsFrom_item x rest opts :
  WellFormedArg x →
  parseArgsFrom (argTokens x ++ rest) opts = parseArgsFrom rest (applyArg opts x).
Proof.
  destruct x as [k flag v|token]; simpl argTokens; intros H.
  - destruct k; each_member H; reflexivity.
  - apply parseArgsFrom_other, H.
Qed.

Lemma parseArgsFrom_items args rest opts :
  Forall WellFormedArg args →
  parseArgsFrom (commandLine args ++ rest) opts =
  parseArgsFrom rest (foldl applyArg opts args).
Proof.
  intros H. revert opts. induction H as [|x args Hx _ IH]; intros opts; [reflexivity|].
  unfold commandLine. rewrite fmap_cons. simpl concat. rewrite <- app_assoc.
  rewrite parseArgsFrom_item by exact Hx. apply IH.
Qed.

(** X1.  A command line made of flags with their values and of tokens that
    are no flags is read from left to right: each flag sets its option to
    the token after it, a later occurrence replacing an earlier one, and
    the other tokens are skipped. *)
Theorem parseArgs_left_to_right (args : list Arg) (rest : list string) (opts : Opts) :
  Forall WellFormedArg args →
  parseArgsFrom (commandLine args ++ rest) opts =
  parseArgsFrom rest (foldl applyArg opts args).
Proof.
  apply parseArgsFrom_items.
Qed.

Lemma parseArgs_left_to_right_witness :
  parseArgs ["build"; "-p"; "foo"; "--pkg"; "bar"; "-f"; "es,umd"] =
  ArgsOk {| o_pkg := Some "bar"; o_component := None;
            o_formats := Some ["es"; "umd"]; o_outRoot := None; o_config := None |}.
Proof.
  apply (parseArgs_left_to_right
           [ArgOther "build"; ArgFlag KPkg "-p" "foo"; ArgFlag KPkg "--pkg" "bar";
            ArgFlag KFormats "-f" "es,umd"] [] emptyOpts).
  repeat constructor; simpl; try in_list.
  intros H. not_in_list H.
Defined.

Lemma split_app_sep s t c :
  Js.includes_char s c = false → Js.split (s +:+ String c t) c = s :: Js.split t c.
Proof.
  induction s as [|a s IH]; simpl.
  - intros _. rewrite Ascii.eqb_refl. reflexivity.
  - destruct (Ascii.eqb a c); [discriminate|]. intros H. rewrite (IH H). reflexivity.
Qed.

(** Splitting a joined list gives the list back. *)
Lemma split_join fs c :
  fs ≠ [] →
  (∀ f, f ∈ fs → ¬ Occurs c f) →
  Js.split (Js.join fs (String c EmptyString)) c = fs.
Proof.
  unfold Js.join. intros Hne Hfs.
  induction fs as [|f fs IH]; [congruence|].
  assert (Hf : Js.includes_char f c = false) by (apply includes_char_false, Hfs; left).
  destruct fs as [|g fs].
  - simpl. apply split_no_sep, Hf.
  - change (String.concat (String c EmptyString) (f :: g :: fs))
      with (f +:+ String c (String.concat (String c EmptyString) (g :: fs))).
    rewrite split_app_sep by exact Hf. f_equal. apply IH; [discriminate|].
    intros f' Hf'. apply Hfs. right. exact Hf'.
Qed.

(** X2.  Spelling options out as a command line and parsing it gives the
    options back, provided the format list, when there is one, is not
    empty and no format contains a comma. *)
Theorem parseArgs_renderOpts (o : Opts) :
  (∀ fs, o_formats o = Some fs → fs ≠ [] ∧ ∀ f, f ∈ fs → ¬ Occurs "," f) →
  parseArgs (renderOpts o) = ArgsOk o.
Proof.
  destruct o as [p c fs r g]. simpl. intros Hfs.
  assert (Hsplit : ∀ l, fs = Some l → Js.split (Js.join l ",") "," = l).
  { intros l ->. destruct (Hfs l eq_refl) as [Hne Hno]. apply split_join; assumption. }
  unfold parseArgs, renderOpts.
  destruct p, c, fs as [l|], r, g; simpl;
    try rewrite (Hsplit l eq_refl); reflexivity.
Qed.

Lemma parseArgs_renderOpts_witness :
  parseArgs ["--pkg"; "@lx/foo"; "--formats"; "es,cjs"; "--out"; "build"] =
  ArgsOk {| o_pkg := Some "@lx/foo"; o_component := None;
            o_formats := Some ["es"; "cjs"]; o_outRoot := Some "build";
            o_config := None |}.
Proof.
  apply (parseArgs_renderOpts
           {| o_pkg := Some "@lx/foo"; o_component := None;
              o_formats := Some ["es"; "cjs"]; o_outRoot := Some "build";
              o_config := None |}).
  intros fs [= <-]. split; [discriminate|].
  intros f Hf. apply includes_char_false. each_member Hf; reflexivity.
Defined.

Lemma or_eqb_elem a x y : String.eqb a x || String.eqb a y = true → a ∈ [x; y].
Proof.
  destruct (String.eqb_spec a x) as [->|_]; [intros _; left|].
  destruct (String.eqb_spec a y) as [->|_]; [intros _; right; left | discriminate].
Qed.

Lemma parseArgsFrom_failures n :
  ∀ argv opts, (length argv ≤ n)%nat →
    (parseArgsFrom argv opts = ArgsTypeError →
     ∃ pre flag, argv = pre ++ [flag] ∧ flag ∈ flagNames KFormats) ∧
    (∀ printed, parseArgsFrom argv opts = ArgsHelp printed →
     printed = usage ∧ ∃ flag, flag ∈ argv ∧ flag ∈ ["--help"; "-h"]).
Proof.
  induction n as [|n IH]; intros argv opts Hlen.
  - destruct argv; [|simpl in Hlen; lia]. split; [discriminate|]. intros ?; discriminate.
  - destruct argv as [|a rest]; [split; [discriminate | intros ?; discriminate]|].
    simpl in Hlen.
    assert (Hvalue : ∀ v rest' o,
              rest = v :: rest' →
              (parseArgsFrom rest' o = ArgsTypeError →
               ∃ pre flag, a :: rest = pre ++ [flag] ∧ flag ∈ flagNames KFormats) ∧
              (∀ printed, parseArgsFrom rest' o = ArgsHelp printed →
               printed = usage ∧ ∃ flag, flag ∈ a :: rest ∧ flag ∈ ["--help"; "-h"])).
    { intros v rest' o ->. simpl in Hlen.
      destruct (IH rest' o ltac:(lia)) as [Herr Hhelp]. split.
      - intros H. destruct (Herr H) as (pre & flag & -> & Hf).
        exists (a :: v :: pre), flag. auto.
      - intros printed H. destruct (Hhelp printed H) as (-> & flag & Hin & Hf).
        split; [reflexivity|]. exists flag. split; [right; right|]; auto. }
    simpl parseArgsFrom.
    destruct (String.eqb a "--pkg" || String.eqb a "-p").
    { destruct rest as [|v rest']; [split; [discriminate | intros ?; discriminate]|].
      eapply Hvalue; reflexivity. }
    destruct (String.eqb a "--component" || String.eqb a "-c").
    { destruct rest as [|v rest']; [split; [discriminate | intros ?; discriminate]|].
      eapply Hvalue; reflexivity. }
    destruct (String.eqb a "--formats" || String.eqb a "-f") eqn:Ef.
    { destruct rest as [|v rest']; [|eapply Hvalue; reflexivity].
      split; [|intros ?; discriminate].
      intros _. exists [], a. split; [reflexivity|]. apply or_eqb_elem, Ef. }
    destruct (String.eqb a "--out" || String.eqb a "-o").
    { destruct rest as [|v rest']; [split; [discriminate | intros ?; discriminate]|].
      eapply Hvalue; reflexivity. }
    destruct (String.eqb a "--config").
    { destruct rest as [|v rest']; [split; [discriminate | intros ?; discriminate]|].
      eapply Hvalue; reflexivity. }
    destruct (String.eqb a "--help" || String.eqb a "-h") eqn:Eh.
    { split; [discriminate|]. intros printed [= <-]. split; [reflexivity|].
      exists a. split; [left | apply or_eqb_elem, Eh]. }
    destruct (IH rest opts ltac:(lia)) as [Herr Hhelp]. split.
    + intros H. destruct (Herr H) as (pre & flag & -> & Hf).
      exists (a :: pre), flag. auto.
    + intros printed H. destruct (Hhelp printed H) as (-> & flag & Hin & Hf).
      split; [reflexivity|]. exists flag. split; [right|]; auto.
Qed.

(** X3.  [parseArgs] throws only when the last token is the formats flag,
    whose missing value cannot be split, and it does throw when that flag
    ends a well-formed command line.  Any other flag that ends a
    well-formed command line is accepted and sets its option to
    [undefined], whatever an earlier occurrence had set.  The usage line
    is printed, and the process exits, only when a help flag is among the
    tokens. *)
Theorem parseArgs_failures (argv : list string) :
  (parseArgs argv = ArgsTypeError →
   ∃ pre flag, argv = pre ++ [flag] ∧ flag ∈ ["--formats"; "-f"]) ∧
  (∀ printed, parseArgs argv = ArgsHelp printed →
   printed = usage ∧ ∃ flag, flag ∈ argv ∧ flag ∈ ["--help"; "-h"]) ∧
  (∀ args k flag,
     argv = commandLine args ++ [flag] →
     Forall WellFormedArg args → flag ∈ flagNames k →
     parseArgs argv =
     match k with
     | KFormats => ArgsTypeError
     | _ => ArgsOk (unsetKey (foldl applyArg emptyOpts args) k)
     end).
Proof.
  split; [|split].
  - apply (parseArgsFrom_failures (length argv)). lia.
  - apply (parseArgsFrom_failures (length argv)). lia.
  - intros args k flag -> Hargs Hflag. unfold parseArgs.
    rewrite parseArgsFrom_items by exact Hargs.
    destruct k; each_member Hflag; reflexivity.
Qed.

Lemma parseArgs_failures_witness :
  (∃ pre flag, ["--pkg"; "foo"; "-f"] = pre ++ [flag] ∧ flag ∈ ["--formats"; "-f"]) ∧
  parseArgs ["all"; "--out"; "lib"; "-p"; "foo"; "--out"] =
  ArgsOk {| o_pkg := Some "foo"; o_component := None; o_formats := None;
            o_outRoot := None; o_config := None |} ∧
  parseArgs ["--pkg"; "foo"; "-f"] = ArgsTypeError.
Proof.
  split; [|split].
  - destruct (parseArgs_failures ["--pkg"; "foo"; "-f"]) as (H & _). apply H. reflexivity.
  - destruct (parseArgs_failures ["all"; "--out"; "lib"; "-p"; "foo"; "--out"])
      as (_ & _ & H).
    apply (H [ArgOther "all"; ArgFlag KOut "--out" "lib"; ArgFlag KPkg "-p" "foo"]
             KOut "--out"); [reflexivity | | in_list].
    repeat constructor; simpl; try in_list. intros Hin. not_in_list Hin.
  - destruct (parseArgs_failures ["--pkg"; "foo"; "-f"]) as (_ & _ & H).
    apply (H [ArgFlag KPkg "--pkg" "foo"] KFormats "-f"); [reflexivity | | in_list].
    repeat constructor; simpl; in_list.
Defined.

(** X4.  On a well-formed command line followed by a help flag the process
    prints the usage line and exits with status 0: the tokens after the
    flag are not read, and nothing is probed, imported or built.  On one
    that ends with the formats flag it prints the TypeError and exits with
    status 1, again without touching the file system or the bundler. *)
Theorem runArgv_help_and_missing_formats {World} `{!Env World}
        (args : list Arg) (flag : string) (w : World) :
  Forall WellFormedArg args →
  (flag ∈ ["--help"; "-h"] →
   ∀ rest, runArgv (commandLine args ++ flag :: rest) w = MkOut (Ok 0%Z) w []) ∧
  (flag ∈ ["--formats"; "-f"] →
   runArgv (commandLine args ++ [flag]) w =
   MkOut (Ok 1%Z) w [EvConsoleError [message splitTypeError]]).
Proof.
  intros Hargs. split; intros Hflag.
  - intros rest. unfold runArgv, parseArgs.
    rewrite parseArgsFrom_items by exact Hargs.
    each_member Hflag; reflexivity.
  - unfold runArgv, parseArgs.
    rewrite parseArgsFrom_items by exact Hargs.
    each_member Hflag; reflexivity.
Qed.

Lemma runArgv_help_and_missing_formats_witness :
  runArgv (Env0:=Fixture.env) ["--pkg"; "foo"; "-h"; "--formats"] Fixture.w0 =
  MkOut (Ok 0%Z) Fixture.w0 [] ∧
  runArgv (Env0:=Fixture.env) ["--pkg"; "foo"; "--formats"] Fixture.w0 =
  MkOut (Ok 1%Z) Fixture.w0 [EvConsoleError [message splitTypeError]].
Proof.
  assert (Hwf : Forall WellFormedArg [ArgFlag KPkg "--pkg" "foo"])
    by (repeat constructor; simpl; in_list).
  destruct (runArgv_help_and_missing_formats (Env0:=Fixture.env)
              [ArgFlag KPkg "--pkg" "foo"] "-h" Fixture.w0 Hwf) as [Hhelp _].
  destruct (runArgv_help_and_missing_formats (Env0:=Fixture.env)
              [ArgFlag KPkg "--pkg" "foo"] "--formats" Fixture.w0 Hwf) as [_ Herr].
  split.
  - apply (Hhelp ltac:(in_list) ["--formats"]).
  - apply Herr. in_list.
Defined.

(** ** Package builds *)

Section PackageExtras.
Context {World : Type} `{!Env World}.

Lemma buildFormats_accepts mk fmts w w' :
  Accepts w (mk <$> fmts) w' →
  buildFormats mk fmts w = MkOut (Ok tt) w' (loopEvents mk fmts).
Proof.
  revert w. induction fmts as [|f fmts IH]; intros w H.
  - inversion H; subst. reflexivity.
  - rewrite fmap_cons in H. inversion H as [|? ? w1 ? ? Hb Hrest]; subst.
    rewrite (buildFormats_next _ _ _ _ _ Hb). rewrite (IH _ Hrest). reflexivity.
Qed.

Lemma buildPackage_trace pkgDir pkgJson opts cfg w entry :
  res (resolveEntry pkgDir pkgJson (packageName pkgDir pkgJson) cfg w) = Ok entry →
  let pkgName := packageName pkgDir pkgJson in
  let loop := try_catch (buildFormats (buildCall w pkgDir pkgJson opts cfg entry)
                                      (requestedFormats opts cfg))
                        (λ err, log ["Build failed for"; pkgName];; throw err) w in
  buildPackage pkgDir pkgJson opts cfg w =
  MkOut (res loop) (world_after loop)
        (trace (resolveEntry pkgDir pkgJson pkgName cfg w) ++
         EvLog (buildingLine pkgDir pkgJson opts cfg entry)
         :: EvExists (path_join [pkgDir; "vite.config.ts"]) :: trace loop).
Proof.
  intros Hr pkgName loop.
  unfold buildPackage. fold pkgName.
  rewrite (bind_ok _ _ _ _ Hr).
  rewrite resolveEntry_world.
  unfold bind at 1 2, log, emit, existsSync. simpl.
  unfold loop, buildCall, requestedFormats, buildingLine. fold pkgName.
  destruct (fs_existsSync w (path_join [pkgDir; "vite.config.ts"])) eqn:E; reflexivity.
Qed.

(** X5.  When the entry resolves and the bundler accepts the call of every
    requested format, [buildPackage] succeeds: after the entry probes it
    logs the "Building" line, probes vite.config.ts once, then logs and
    builds each format in the order requested, and nothing else; the world
    is the one the last build left. *)
Theorem buildPackage_success (pkgDir : string) (pkgJson : PkgJson) (opts : Opts)
        (cfg : BuildConfig) (w w' : World) (entry : string) :
  let mk := buildCall w pkgDir pkgJson opts cfg entry in
  res (resolveEntry pkgDir pkgJson (packageName pkgDir pkgJson) cfg w) = Ok entry →
  Accepts w (mk <$> requestedFormats opts cfg) w' →
  buildPackage pkgDir pkgJson opts cfg w =
  MkOut (Ok tt) w'
        (trace (resolveEntry pkgDir pkgJson (packageName pkgDir pkgJson) cfg w) ++
         EvLog (buildingLine pkgDir pkgJson opts cfg entry)
         :: EvExists (path_join [pkgDir; "vite.config.ts"])
         :: loopEvents mk (requestedFormats opts cfg)).
Proof.
  intros mk Hr Hacc.
  rewrite (buildPackage_trace _ _ _ _ _ _ Hr). fold mk.
  unfold try_catch. rewrite (buildFormats_accepts _ _ _ _ Hacc). reflexivity.
Qed.

(** X6.  Every bundler call made for a package is the call for one of the
    requested formats, with the entry that was resolved once for the
    package, the package directory as root, the short name as library
    name, and the package's vite.config.ts as configuration file exactly
    when that file is present. *)
Theorem buildPackage_calls (pkgDir : string) (pkgJson : PkgJson) (opts : Opts)
        (cfg : BuildConfig) (w : World) (c : InlineConfig) :
  EvBuild c ∈ trace (buildPackage pkgDir pkgJson opts cfg w) →
  ∃ entry format,
    res (resolveEntry pkgDir pkgJson (packageName pkgDir pkgJson) cfg w) = Ok entry ∧
    format ∈ requestedFormats opts cfg ∧
    lib_formats (bo_lib (ic_build c)) = [format] ∧
    lib_entry (bo_lib (ic_build c)) = entry ∧
    lib_name (bo_lib (ic_build c)) = shortName (packageName pkgDir pkgJson) ∧
    ic_root c = pkgDir ∧
    ic_configFile c =
      (if fs_existsSync w (path_join [pkgDir; "vite.config.ts"])
       then Some (path_join [pkgDir; "vite.config.ts"]) else None).
Proof.
  intros Hc.
  destruct (res (resolveEntry pkgDir pkgJson (packageName pkgDir pkgJson) cfg w))
    as [entry|e|code] eqn:Hr.
  - rewrite (buildPackage_trace _ _ _ _ _ _ Hr) in Hc. simpl in Hc.
    apply elem_of_app in Hc as [Hc|Hc].
    { exfalso. revert Hc. apply no_build_elem, resolveEntry_no_build. }
    apply elem_of_cons in Hc as [Hc|Hc]; [discriminate|].
    apply elem_of_cons in Hc as [Hc|Hc]; [discriminate|].
    apply try_catch_event in Hc as [Hc|(e & _ & Hc)].
    + apply buildFormats_builds in Hc as (f & Hf & ->).
      exists entry, f. repeat split; auto.
    + apply bind_event in Hc as [Hc|(_ & _ & Hc)].
      * apply list_elem_of_singleton in Hc. discriminate.
      * inversion Hc.
  - exfalso. unfold buildPackage in Hc. rewrite (bind_throw _ _ _ _ Hr) in Hc.
    revert Hc. apply no_build_elem, resolveEntry_no_build.
  - exfalso. unfold buildPackage in Hc. rewrite (bind_exit _ _ _ _ Hr) in Hc.
    revert Hc. apply no_build_elem, resolveEntry_no_build.
Qed.

Lemma indexFileNames_test f : f ∈ indexFileNames ↔ index_re_test f = true.
Proof.
  rewrite index_re_test_spec. split.
  - intros H. each_member H; eexists; (split; [|reflexivity]); in_list.
  - intros (ext & Hext & ->). each_member Hext; in_list.
Qed.

Lemma find_first {A} (f : A → bool) (pre : list A) (x : A) (post : list A) :
  (∀ y, y ∈ pre → f y = false) → f x = true →
  List.find f (pre ++ x :: post) = Some x.
Proof.
  intros Hpre Hx. induction pre as [|y pre IH]; simpl.
  - rewrite Hx. reflexivity.
  - rewrite (Hpre y) by left. apply IH. intros z Hz. apply Hpre. right. exact Hz.
Qed.

Lemma tryCandidates_missing pkgDir cands w :
  Missing w pkgDir cands →
  tryCandidates pkgDir cands w = MkOut (Ok None) w (probes pkgDir cands).
Proof.
  intros Hmiss.
  destruct (tryCandidates_spec pkgDir cands w)
    as (Hw & [(before & c & after & Hc & Hne & He & _) | (_ & Hr & Ht)]).
  - exfalso. rewrite (Hmiss c) in He; [discriminate | | exact Hne].
    rewrite Hc. apply elem_of_app. right. left.
  - destruct (tryCandidates pkgDir cands w) as [r w2 tr]. simpl in *. congruence.
Qed.

(** X7.  When no candidate is present on disk the entry is the first name
    of the directory listing that is one of index.ts, index.js, index.mjs,
    index.cjs, index.tsx, in listing order whatever the extension, joined
    to the package directory; it is taken from the listing without a
    further probe. *)
Theorem entry_falls_back_to_first_index (pkgDir : string) (pkgJson : PkgJson)
        (cfg : BuildConfig) (w : World) (pre : list string) (idx : string)
        (post : list string) :
  let cands := pj_module pkgJson :: pj_main pkgJson :: (Some <$> entryFiles cfg) in
  Missing w pkgDir cands →
  fs_readdirSync w pkgDir = inr (pre ++ idx :: post) →
  idx ∈ indexFileNames →
  (∀ f, f ∈ pre → f ∉ indexFileNames) →
  path_join [pkgDir; idx] ≠ EmptyString →
  resolveEntry pkgDir pkgJson (packageName pkgDir pkgJson) cfg w =
  MkOut (Ok (path_join [pkgDir; idx])) w (probes pkgDir cands ++ [EvReaddir pkgDir]).
Proof.
  intros cands Hmiss Hdir Hidx Hpre Hne.
  unfold resolveEntry. fold cands.
  unfold bind at 1. rewrite (tryCandidates_missing _ _ _ Hmiss). simpl.
  unfold bind, readdirSync. rewrite Hdir. simpl.
  rewrite find_first.
  - simpl. destruct (path_join [pkgDir; idx]); [congruence|].
    simpl. rewrite ?app_nil_r. reflexivity.
  - intros f Hf. specialize (Hpre f Hf). rewrite indexFileNames_test in Hpre.
    destruct (index_re_test f); congruence.
  - apply indexFileNames_test, Hidx.
Qed.

(** X8.  When no candidate is present on disk and the package directory
    cannot be listed, [buildPackage] fails with the error of
    [fs.readdirSync] itself, not with the entry-not-found error, and the
    bundler is not called. *)
Theorem listing_failure_propagates (pkgDir : string) (pkgJson : PkgJson) (opts : Opts)
        (cfg : BuildConfig) (w : World) (e : JsError) :
  let cands := pj_module pkgJson :: pj_main pkgJson :: (Some <$> entryFiles cfg) in
  Missing w pkgDir cands →
  fs_readdirSync w pkgDir = inl e →
  buildPackage pkgDir pkgJson opts cfg w =
  MkOut (Throw e) w (probes pkgDir cands ++ [EvReaddir pkgDir]).
Proof.
  intros cands Hmiss Hdir.
  assert (Hres : resolveEntry pkgDir pkgJson (packageName pkgDir pkgJson) cfg w =
                 MkOut (Throw e) w (probes pkgDir cands ++ [EvReaddir pkgDir])).
  { unfold resolveEntry. fold cands.
    unfold bind at 1. rewrite (tryCandidates_missing _ _ _ Hmiss). simpl.
    unfold bind, readdirSync. rewrite Hdir. reflexivity. }
  unfold buildPackage. erewrite bind_throw by (rewrite Hres; reflexivity).
  rewrite Hres. reflexivity.
Qed.

End PackageExtras.

Lemma buildPackage_success_witness :
  res (buildPackage (Env0:=Fixture.env) "/repo/packages/bar" Fixture.barJson
                    Fixture.noOpts config Fixture.w0) = Ok tt.
Proof.
  erewrite (buildPackage_success (Env0:=Fixture.env) "/repo/packages/bar"
              Fixture.barJson Fixture.noOpts config Fixture.w0 _
              "/repo/packages/bar/index.ts").
  - reflexivity.
  - vm_compute. reflexivity.
  - change (requestedFormats Fixture.noOpts config) with ["es"; "cjs"; "umd"].
    rewrite !fmap_cons, fmap_nil.
    repeat (eapply Accepts_cons; [vm_compute; reflexivity|]).
    apply Accepts_nil.
Defined.

Lemma buildPackage_calls_witness :
  ∃ c, EvBuild c ∈ trace (buildPackage (Env0:=Fixture.env) "/repo/packages/foo"
                            Fixture.fooJson Fixture.noOpts config Fixture.w0) ∧
       lib_entry (bo_lib (ic_build c)) = "/repo/packages/foo/src/index.ts" ∧
       ic_root c = "/repo/packages/foo" ∧
       ic_configFile c = None.
Proof.
  set (o := buildPackage (Env0:=Fixture.env) "/repo/packages/foo"
              Fixture.fooJson Fixture.noOpts config Fixture.w0).
  destruct (trace o !! 4) as [[| | | | | |c]|] eqn:E; try (vm_compute in E; discriminate E).
  assert (Hc : EvBuild c ∈ trace o) by (eapply list_elem_of_lookup_2; exact E).
  exists c. split; [exact Hc|].
  destruct (buildPackage_calls (Env0:=Fixture.env) _ _ _ _ _ _ Hc)
    as (entry & format & Hr & _ & _ & He & _ & Hroot & Hcf).
  vm_compute in Hr. injection Hr as <-.
  split; [exact He|]. split; [exact Hroot | exact Hcf].
Defined.

Lemma entry_falls_back_to_first_index_witness :
  let w := {| Fixture.paths := ["/repo/packages/zed"];
              Fixture.listings := [("/repo/packages/zed",
                                     [("README.md", false); ("index.js", false);
                                      ("index.ts", false)])];
              Fixture.manifests := []; Fixture.modules := [];
              Fixture.bad_formats := [] |} in
  res (resolveEntry (Env0:=Fixture.env) "/repo/packages/zed" Fixture.zedJson
                    (@packageName _ Fixture.env "/repo/packages/zed" Fixture.zedJson)
                    config w) = Ok "/repo/packages/zed/index.js".
Proof.
  intros w.
  rewrite (entry_falls_back_to_first_index (Env0:=Fixture.env) "/repo/packages/zed"
             Fixture.zedJson config w ["README.md"] "index.js" ["index.ts"]).
  - reflexivity.
  - intros c Hc _. each_member Hc; reflexivity.
  - reflexivity.
  - in_list.
  - intros f Hf Hin. each_member Hf. not_in_list Hin.
  - discriminate.
Defined.

Lemma listing_failure_propagates_witness :
  res (buildPackage (Env0:=Fixture.env) "/repo/packages/gone" Fixture.zedJson
                    Fixture.noOpts config Fixture.w0) =
  Throw (Fixture.enoent "/repo/packages/gone").
Proof.
  rewrite (listing_failure_propagates (Env0:=Fixture.env) "/repo/packages/gone"
             Fixture.zedJson Fixture.noOpts config Fixture.w0
             (Fixture.enoent "/repo/packages/gone")).
  - reflexivity.
  - intros c Hc _. each_member Hc; reflexivity.
  - reflexivity.
Defined.

(** ** Single-component builds *)

Lemma string_app_nil_r s : s +:+ EmptyString = s.
Proof. induction s as [|a s IH]; simpl; congruence. Qed.

Lemma rev_app_append s t u : String.rev_app s t +:+ u = String.rev_app s (t +:+ u).
Proof. revert t. induction s as [|a s IH]; intros t; simpl; [reflexivity | apply IH]. Qed.

Lemma rev_app_of_append s t u :
  String.rev_app (s +:+ t) u = String.rev_app t (String.rev_app s u).
Proof. revert u. induction s as [|a s IH]; intros u; simpl; [reflexivity | apply IH]. Qed.

Lemma rev_app_rev_app s t u :
  String.rev_app (String.rev_app s t) u = String.rev_app t (s +:+ u).
Proof.
  revert t u. induction s as [|a s IH]; intros t u; simpl; [reflexivity|].
  rewrite IH. reflexivity.
Qed.

(** [s.endsWith(p)] holds exactly when [s] is some text followed by [p]. *)
Lemma endsWith_spec s p : Js.endsWith s p = true ↔ ∃ pre, s = pre +:+ p.
Proof.
  unfold Js.endsWith. fold (Js.startsWith (String.rev s) (String.rev p)).
  rewrite startsWith_spec. unfold StartsWith, String.rev. split.
  - intros [r Hr]. exists (String.rev_app r EmptyString).
    rewrite rev_app_append. simpl.
    assert (H : String.rev_app (String.rev_app s EmptyString) EmptyString = s).
    { rewrite rev_app_rev_app. simpl. apply string_app_nil_r. }
    rewrite <- H at 1. rewrite Hr, rev_app_of_append, rev_app_rev_app. simpl.
    rewrite string_app_nil_r. reflexivity.
  - intros [pre ->]. exists (String.rev_app pre EmptyString).
    rewrite rev_app_of_append, rev_app_append. reflexivity.
Qed.

Section ComponentExtras.
Context {World : Type} `{!Env World}.

(** X9.  The entry check of a single-component build fails at once, with
    an error naming the component, when the component directory is absent;
    and whenever it passes, the path it yields is present on disk and is
    index.ts in the component directory, src/index.ts, or src/<f> for a
    name <f> ending in .vue that the listing of the component directory
    (not of src) contains. *)
Theorem componentEntry_sound (componentsDir componentName : string) (w : World) :
  let compDir := path_join [componentsDir; componentName] in
  (fs_existsSync w compDir = false →
   componentEntry componentsDir componentName w =
   MkOut (Throw (MkError ("component " +:+ componentName +:+ " not found in "
                          +:+ componentsDir))) w [EvExists compDir]) ∧
  (∀ p, res (componentEntry componentsDir componentName w) = Ok p →
        fs_existsSync w compDir = true ∧
        fs_existsSync w p = true ∧
        (p = path_join [compDir; "index.ts"] ∨
         p = path_join [compDir; "src"; "index.ts"] ∨
         ∃ files f, fs_readdirSync w compDir = inr files ∧ f ∈ files ∧
                    (∃ pre, f = pre +:+ ".vue") ∧
                    p = path_join [compDir; "src"; f])).
Proof.
  intros compDir. split.
  - intros Hd. unfold componentEntry. fold compDir.
    unfold bind, existsSync. simpl. rewrite Hd. reflexivity.
  - intros p. unfold componentEntry. fold compDir.
    unfold bind, existsSync, readdirSync, ret, throw. simpl.
    destruct (fs_existsSync w compDir) eqn:Ed; simpl; [|discriminate].
    destruct (fs_existsSync w (path_join [compDir; "index.ts"])) eqn:Ei; simpl.
    + rewrite Ei. simpl. rewrite Ei. simpl. intros [= <-]. auto.
    + destruct (fs_readdirSync w compDir) as [e|files] eqn:Er; simpl; [discriminate|].
      destruct (List.find (λ f, Js.endsWith f ".vue") files) as [v|] eqn:Ef; simpl.
      * apply List.find_some in Ef as [Hin Hv].
        apply list_elem_of_In in Hin. apply endsWith_spec in Hv.
        destruct (fs_existsSync w (path_join [compDir; "src"; v])) eqn:Ev; simpl.
        -- rewrite Ev. simpl. intros [= <-]. split; [reflexivity|]. split; [exact Ev|].
           right. right. exists files, v. auto.
        -- destruct (fs_existsSync w (path_join [compDir; "src"; "index.ts"])) eqn:Ea; simpl.
           ++ rewrite Ea. simpl. intros [= <-]. auto.
           ++ rewrite Ev. simpl. discriminate.
      * rewrite Ei. simpl.
        destruct (fs_existsSync w (path_join [compDir; "src"; "index.ts"])) eqn:Ea; simpl.
        -- rewrite Ea. simpl. intros [= <-]. auto.
        -- rewrite Ei. simpl. discriminate.
Qed.

Lemma shortName_scoped name :
  ¬ Occurs "/" name → shortName ("@lx/" +:+ name) = name.
Proof.
  intros Hno. apply includes_char_false in Hno.
  unfold shortName.
  assert (Hi : Js.includes_char ("@lx/" +:+ name) "/" = true) by reflexivity.
  rewrite Hi.
  change ("@lx/" +:+ name) with ("@lx" +:+ String "/" name).
  rewrite split_app_sep by reflexivity.
  rewrite (split_no_sep _ _ Hno). reflexivity.
Qed.

(** X10.  A single component is built as the manifest-less package
    "@lx/<name>" rooted at the component directory: every bundler call has
    that directory as root, an empty [external] list (nothing is
    externalized, whatever the predicate), and, for a name without '/',
    the component name as library name and in the artifact names. *)
Theorem component_build_calls (componentsDir componentName : string) (opts : Opts)
        (cfg : BuildConfig) (w : World) (c : InlineConfig) :
  EvBuild c ∈ trace (buildSingleComponent componentsDir componentName opts cfg w) →
  ic_root c = path_join [componentsDir; componentName] ∧
  ro_external (bo_rollupOptions (ic_build c)) = [] ∧
  (¬ Occurs "/" componentName →
   lib_name (bo_lib (ic_build c)) = componentName ∧
   ∀ f, lib_fileName (bo_lib (ic_build c)) f = componentName +:+ "." +:+ f +:+ ".js").
Proof.
  intros Hc. unfold buildSingleComponent in Hc.
  apply bind_event in Hc as [Hc|(p & _ & Hc)].
  { exfalso. revert Hc. unfold componentEntry, bind, existsSync, readdirSync, ret, throw.
    simpl. intros Hc.
    repeat (case_match; simpl in Hc);
      repeat (apply elem_of_cons in Hc as [Hc|Hc]; [discriminate|]);
      inversion Hc. }
  apply buildPackage_builds in Hc as (entry & format & cf & _ & _ & ->).
  simpl. split; [reflexivity|]. split; [reflexivity|].
  intros Hno. unfold packageName. simpl Js.or_else.
  change (String "@" (String "l" (String "x" (String "/" componentName))))
    with ("@lx/" +:+ componentName).
  rewrite (shortName_scoped _ Hno). auto.
Qed.

End ComponentExtras.

Lemma componentEntry_sound_witness :
  componentEntry (Env0:=Fixture.env) "/repo/packages/components" "button" Fixture.w0 =
  MkOut (Throw (MkError "component button not found in /repo/packages/components"))
        Fixture.w0 [EvExists "/repo/packages/components/button"] ∧
  fs_existsSync (Env:=Fixture.env) Fixture.w_vue
                "/repo/packages/components/card/src/Card.vue" = true.
Proof.
  split.
  - destruct (componentEntry_sound (Env0:=Fixture.env) "/repo/packages/components"
                "button" Fixture.w0) as [H _].
    apply H. reflexivity.
  - destruct (componentEntry_sound (Env0:=Fixture.env) "/repo/packages/components"
                "card" Fixture.w_vue) as [_ H].
    destruct (H "/repo/packages/components/card/src/Card.vue") as (_ & Hp & _).
    + vm_compute. reflexivity.
    + exact Hp.
Defined.

(** A component with an index.ts, built in the es format only. *)
Lemma component_build_calls_witness :
  let w := {| Fixture.paths := ["/repo/packages/components/tag";
                                "/repo/packages/components/tag/index.ts"];
              Fixture.listings := []; Fixture.manifests := [];
              Fixture.modules := []; Fixture.bad_formats := [] |} in
  let opts := set_formats Fixture.noOpts (Some ["es"]) in
  ∃ c, EvBuild c ∈ trace (buildSingleComponent (Env0:=Fixture.env)
                            "/repo/packages/components" "tag" opts config w) ∧
       ro_external (bo_rollupOptions (ic_build c)) = [] ∧
       lib_fileName (bo_lib (ic_build c)) "es" = "tag.es.js".
Proof.
  intros w opts.
  set (o := buildSingleComponent (Env0:=Fixture.env)
              "/repo/packages/components" "tag" opts config w).
  destruct (last (trace o)) as [[| | | | | |c]|] eqn:E; try (vm_compute in E; discriminate E).
  assert (Hc : EvBuild c ∈ trace o) by (eapply last_Some_elem_of; exact E).
  exists c. split; [exact Hc|].
  destruct (component_build_calls (Env0:=Fixture.env) _ _ _ _ _ _ Hc) as (_ & Hext & Hname).
  split; [exact Hext|].
  destruct Hname as [_ Hfile].
  - intros Ho. apply includes_char_spec in Ho. discriminate Ho.
  - rewrite Hfile. reflexivity.
Defined.

(** ** The driver *)

Section DriverExtras.
Context {World : Type} `{!Env World}.

Lemma filterManifest_spec dirs w :
  filterManifest dirs w =
  MkOut (Ok (List.filter (λ d, fs_existsSync w (manifestPath d)) dirs)) w
        ((λ d, EvExists (manifestPath d)) <$> dirs).
Proof.
  induction dirs as [|d dirs IH]; [reflexivity|].
  simpl filterManifest. unfold bind. rewrite existsSync_out. simpl.
  rewrite IH. simpl.
  rewrite app_nil_r.
  unfold manifestPath. destruct (fs_existsSync w (path_join [d; "package.json"]));
    reflexivity.
Qed.

(** X11.  Package discovery lists the packages directory once and keeps,
    in listing order, the entries that are directories and whose
    package.json is present; every directory is probed once, plain files
    are not probed, and the world is unchanged.  When the listing fails
    its error is thrown. *)
Theorem discover_spec (packagesDir : string) (w : World) :
  (∀ entries, fs_readdirTypes w packagesDir = inr entries →
     let dirs := (λ d, path_join [packagesDir; d.1]) <$> List.filter snd entries in
     discover packagesDir w =
     MkOut (Ok (List.filter (λ d, fs_existsSync w (manifestPath d)) dirs)) w
           (EvReaddir packagesDir :: ((λ d, EvExists (manifestPath d)) <$> dirs))) ∧
  (∀ e, fs_readdirTypes w packagesDir = inl e →
     discover packagesDir w = MkOut (Throw e) w [EvReaddir packagesDir]).
Proof.
  split.
  - intros entries Hd dirs. unfold discover, bind, readdirTypes. rewrite Hd. simpl.
    fold dirs. rewrite filterManifest_spec. reflexivity.
  - intros e Hd. unfold discover, bind, readdirTypes. rewrite Hd. reflexivity.
Qed.

Lemma findTarget_cons_skip pkg d rest w :
  NotTarget w pkg d →
  findTarget pkg (d :: rest) w =
  MkOut (res (findTarget pkg rest w)) (world_after (findTarget pkg rest w))
        (EvReadFile (manifestPath d) :: trace (findTarget pkg rest w)).
Proof.
  intros (pj & Hr & Hn & Hb). simpl findTarget.
  unfold bind, readPackageJson. fold (manifestPath d). rewrite Hr. simpl.
  rewrite bool_decide_eq_false_2 by exact Hn.
  rewrite bool_decide_eq_false_2 by exact Hb. reflexivity.
Qed.

Lemma findTarget_cons_hit pkg d rest w :
  IsTarget w pkg d →
  findTarget pkg (d :: rest) w = MkOut (Ok (Some d)) w [EvReadFile (manifestPath d)].
Proof.
  intros (pj & Hr & Hm). simpl findTarget.
  unfold bind, readPackageJson. fold (manifestPath d). rewrite Hr. simpl.
  assert (Hb : bool_decide (pj_name pj = Some pkg) || bool_decide (path_basename d = pkg)
               = true).
  { destruct Hm as [Hm|Hm]; rewrite (bool_decide_eq_true_2 _ Hm);
      [reflexivity | apply orb_true_r]. }
  rewrite Hb. reflexivity.
Qed.

Lemma findTarget_walk pkg pre w :
  Forall (NotTarget w pkg) pre →
  (∀ d post, IsTarget w pkg d →
     findTarget pkg (pre ++ d :: post) w =
     MkOut (Ok (Some d)) w ((λ d, EvReadFile (manifestPath d)) <$> (pre ++ [d]))) ∧
  findTarget pkg pre w =
    MkOut (Ok None) w ((λ d, EvReadFile (manifestPath d)) <$> pre) ∧
  (∀ d post e, read_json w (manifestPath d) = inl e →
     findTarget pkg (pre ++ d :: post) w =
     MkOut (Throw e) w ((λ d, EvReadFile (manifestPath d)) <$> (pre ++ [d]))).
Proof.
  intros Hpre. induction Hpre as [|x pre Hx _ (IHhit & IHnone & IHerr)].
  - split; [|split].
    + intros d post Hd. apply findTarget_cons_hit, Hd.
    + reflexivity.
    + intros d post e He. simpl. unfold bind, readPackageJson.
      fold (manifestPath d). rewrite He. reflexivity.
  - split; [|split].
    + intros d post Hd. simpl app. rewrite (findTarget_cons_skip _ _ _ _ Hx).
      rewrite (IHhit d post Hd). reflexivity.
    + rewrite (findTarget_cons_skip _ _ _ _ Hx). rewrite IHnone. reflexivity.
    + intros d post e He. simpl app. rewrite (findTarget_cons_skip _ _ _ _ Hx).
      rewrite (IHerr d post e He). reflexivity.
Qed.

(** X12.  The search for the package named on the command line reads the
    manifests in discovery order and stops at the first directory whose
    declared name or directory name is the requested one; the manifests of
    the directories after it are not read.  When no directory matches it
    finds nothing, having read every manifest; and a manifest that cannot
    be read or parsed before a match ends the search with that error. *)
Theorem findTarget_spec (pkg : string) (pre : list string) (w : World) :
  Forall (NotTarget w pkg) pre →
  (∀ d post, IsTarget w pkg d →
     findTarget pkg (pre ++ d :: post) w =
     MkOut (Ok (Some d)) w ((λ d, EvReadFile (manifestPath d)) <$> (pre ++ [d]))) ∧
  findTarget pkg pre w =
    MkOut (Ok None) w ((λ d, EvReadFile (manifestPath d)) <$> pre) ∧
  (∀ d post e, read_json w (manifestPath d) = inl e →
     findTarget pkg (pre ++ d :: post) w =
     MkOut (Throw e) w ((λ d, EvReadFile (manifestPath d)) <$> (pre ++ [d]))).
Proof.
  apply findTarget_walk.
Qed.

(** [main] up to the point where the build mode is chosen. *)
Lemma main_start opts w cfg :
  res (loadConfig (o_config opts) w) = Ok cfg →
  let w1 := world_after (loadConfig (o_config opts) w) in
  fs_existsSync w1 packagesDirectory = true →
  let mode :=
    match o_component opts with
    | Some (String _ _ as component) =>
        let* present := existsSync componentsDirectory in
        if negb present then throw (MkError "components package not found")
        else
          buildSingleComponent componentsDirectory component opts cfg;;
          log ["Single component build complete"]
    | _ =>
        let* pkgDirs := discover packagesDirectory in
        match o_pkg opts with
        | Some (String _ _ as pkg) =>
            let* target := findTarget pkg pkgDirs in
            match target with
            | Some (String _ _ as target) =>
                let* pj := readPackageJson (path_join [target; "package.json"]) in
                buildPackage target pj opts cfg;;
                log ["Package build complete for"; pkg]
            | _ => throw (MkError ("package " +:+ pkg +:+ " not found"))
            end
        | _ =>
            buildAll pkgDirs opts cfg;;
            log ["All packages built"]
        end
    end in
  main opts w =
  MkOut (res (mode w1)) (world_after (mode w1))
        (trace (loadConfig (o_config opts) w) ++ EvExists packagesDirectory
         :: trace (mode w1)).
Proof.
  intros Hcfg w1 Hex mode.
  unfold main. fold packagesDirectory. fold componentsDirectory.
  rewrite (bind_ok _ _ _ _ Hcfg). fold w1.
  unfold bind at 1 2. rewrite existsSync_out. simpl. rewrite Hex. simpl.
  reflexivity.
Qed.

(** X13.  When the packages directory is absent the process prints
    "packages directory not found:" with its path and exits with status 1
    at once; in component mode, when the components directory is absent,
    it throws "components package not found", prints it and exits with
    status 1.  In both cases nothing is listed, read or built. *)
Theorem run_missing_directory (opts : Opts) (w : World) (cfg : BuildConfig) :
  res (loadConfig (o_config opts) w) = Ok cfg →
  let w1 := world_after (loadConfig (o_config opts) w) in
  (fs_existsSync w1 packagesDirectory = false →
   run opts w =
   MkOut (Ok 1%Z) w1
         (trace (loadConfig (o_config opts) w) ++
          [EvExists packagesDirectory;
           EvConsoleError ["packages directory not found:"; packagesDirectory]])) ∧
  (fs_existsSync w1 packagesDirectory = true →
   Js.truthy (o_component opts) = true →
   fs_existsSync w1 componentsDirectory = false →
   run opts w =
   MkOut (Ok 1%Z) w1
         (trace (loadConfig (o_config opts) w) ++
          [EvExists packagesDirectory; EvExists componentsDirectory;
           EvConsoleError ["components package not found"]])).
Proof.
  intros Hcfg w1. split.
  - intros Hex. unfold run, main. fold packagesDirectory.
    rewrite (bind_ok _ _ _ _ Hcfg). fold w1.
    unfold bind, console_error, emit, exit. rewrite existsSync_out. simpl.
    rewrite Hex. reflexivity.
  - intros Hex Hc Hcomp. unfold run.
    rewrite (main_start _ _ _ Hcfg Hex). fold w1.
    destruct (o_component opts) as [[|a s]|]; try discriminate Hc.
    unfold bind. rewrite existsSync_out. simpl. rewrite Hcomp. simpl.
    rewrite <- app_assoc. reflexivity.
Qed.

Lemma buildPackage_opts pkgDir pkgJson opts opts' cfg :
  o_formats opts' = o_formats opts → o_outRoot opts' = o_outRoot opts →
  buildPackage pkgDir pkgJson opts' cfg = buildPackage pkgDir pkgJson opts cfg.
Proof. intros Hf Ho. unfold buildPackage. rewrite Hf, Ho. reflexivity. Qed.

(** X14.  The component flag takes precedence: when a component is named,
    the run does not depend on the package option at all. *)
Theorem component_takes_precedence (opts : Opts) (pkg : option string) (w : World) :
  Js.truthy (o_component opts) = true →
  run (set_pkg opts pkg) w = run opts w.
Proof.
  intros Hc. unfold run.
  assert (Hmain : main (set_pkg opts pkg) w = main opts w); [|rewrite Hmain; reflexivity].
  unfold main. simpl o_config. simpl o_component.
  destruct (o_component opts) as [[|a s]|]; try discriminate Hc.
  unfold buildSingleComponent.
  f_equal.
Qed.

(** X15.  In an all-packages run whose package loop completes, the
    process logs "All packages built" last and exits with status 0; its
    effects are those of configuration loading, the probe of the packages
    directory, discovery and the package loop, in this order. *)
Theorem run_all_success (opts : Opts) (w : World) (cfg : BuildConfig)
        (dirs : list string) :
  Js.truthy (o_component opts) = false →
  Js.truthy (o_pkg opts) = false →
  res (loadConfig (o_config opts) w) = Ok cfg →
  let w1 := world_after (loadConfig (o_config opts) w) in
  fs_existsSync w1 packagesDirectory = true →
  res (discover packagesDirectory w1) = Ok dirs →
  let w2 := world_after (discover packagesDirectory w1) in
  res (buildAll dirs opts cfg w2) = Ok tt →
  run opts w =
  MkOut (Ok 0%Z) (world_after (buildAll dirs opts cfg w2))
        (trace (loadConfig (o_config opts) w) ++ EvExists packagesDirectory
         :: trace (discover packagesDirectory w1)
         ++ trace (buildAll dirs opts cfg w2) ++ [EvLog ["All packages built"]]).
Proof.
  intros Hc Hp Hcfg w1 Hex Hdisc w2 Hall.
  unfold run. rewrite (main_start _ _ _ Hcfg Hex). fold w1.
  assert (Htail :
    (let* pkgDirs := discover packagesDirectory in
     buildAll pkgDirs opts cfg;; log ["All packages built"]) w1 =
    MkOut (Ok tt) (world_after (buildAll dirs opts cfg w2))
          (trace (discover packagesDirectory w1) ++ trace (buildAll dirs opts cfg w2)
           ++ [EvLog ["All packages built"]])).
  { rewrite (bind_ok _ _ _ _ Hdisc). fold w2.
    rewrite (bind_ok _ _ _ _ Hall). reflexivity. }
  destruct (o_component opts) as [[|? ?]|]; try discriminate Hc;
    destruct (o_pkg opts) as [[|? ?]|]; try discriminate Hp;
    rewrite Htail; reflexivity.
Qed.

Lemma discover_world packagesDir w : world_after (discover packagesDir w) = w.
Proof.
  unfold discover, bind, readdirTypes.
  destruct (fs_readdirTypes w packagesDir) as [e|entries]; [reflexivity|].
  simpl. rewrite filterManifest_spec. reflexivity.
Qed.

(** X16.  In a single-package run the first discovered directory that is
    the requested package, by declared name or by directory name, is the
    one built, from its manifest read a second time; the process exits
    with status 0 after logging "Package build complete for" when that
    build succeeds.  When no discovered directory is the requested package
    the process prints "package <name> not found" and exits with status
    1 without building anything. *)
Theorem run_single_package (opts : Opts) (w : World) (cfg : BuildConfig)
        (pkg : string) (dirs : list string) :
  Js.truthy (o_component opts) = false →
  o_pkg opts = Some pkg → pkg ≠ EmptyString →
  res (loadConfig (o_config opts) w) = Ok cfg →
  let w1 := world_after (loadConfig (o_config opts) w) in
  fs_existsSync w1 packagesDirectory = true →
  res (discover packagesDirectory w1) = Ok dirs →
  let before := trace (loadConfig (o_config opts) w) ++ EvExists packagesDirectory
                :: trace (discover packagesDirectory w1) in
  (Forall (NotTarget w1 pkg) dirs →
   run opts w =
   MkOut (Ok 1%Z) w1
         (before ++ ((λ d, EvReadFile (manifestPath d)) <$> dirs)
          ++ [EvConsoleError ["package " +:+ pkg +:+ " not found"]])) ∧
  (∀ pre d post pj,
     dirs = pre ++ d :: post → d ≠ EmptyString →
     Forall (NotTarget w1 pkg) pre →
     read_json w1 (manifestPath d) = inr pj →
     pj_name pj = Some pkg ∨ path_basename d = pkg →
     res (buildPackage d pj opts cfg w1) = Ok tt →
     run opts w =
     MkOut (Ok 0%Z) (world_after (buildPackage d pj opts cfg w1))
           (before ++ ((λ d, EvReadFile (manifestPath d)) <$> (pre ++ [d]))
            ++ EvReadFile (manifestPath d) :: trace (buildPackage d pj opts cfg w1)
            ++ [EvLog ["Package build complete for"; pkg]])).
Proof.
  intros Hc Hp Hne Hcfg w1 Hex Hdisc before.
  destruct pkg as [|a s]; [congruence|]. set (pkg := String a s) in *.
  assert (Hmain : ∀ r wf tr,
    (let* target := findTarget pkg dirs in
     match target with
     | Some (String _ _ as target) =>
         let* pj := readPackageJson (path_join [target; "package.json"]) in
         buildPackage target pj opts cfg;;
         log ["Package build complete for"; pkg]
     | _ => throw (MkError ("package " +:+ pkg +:+ " not found"))
     end) w1 = MkOut r wf tr →
    main opts w = MkOut r wf (before ++ tr)).
  { intros r wf tr Htail. rewrite (main_start _ _ _ Hcfg Hex). fold w1.
    destruct (o_component opts) as [[|? ?]|]; try discriminate Hc;
      rewrite Hp; unfold pkg in Htail |- *;
      rewrite (bind_ok _ _ _ _ Hdisc), discover_world, Htail;
      unfold before; rewrite <- app_assoc; reflexivity. }
  split.
  - intros Hnone.
    destruct (findTarget_walk pkg dirs w1 Hnone) as (_ & Hfind & _).
    unfold run. erewrite Hmain.
    2:{ erewrite bind_ok by (rewrite Hfind; reflexivity). rewrite Hfind. reflexivity. }
    simpl. rewrite app_nil_r, <- app_assoc. reflexivity.
  - intros pre d post pj -> Hd Hpre Hread Hmatch Hbuild.
    destruct (findTarget_walk pkg pre w1 Hpre) as (Hfind & _ & _).
    specialize (Hfind d post (ex_intro _ pj (conj Hread Hmatch))).
    destruct d as [|a' s']; [congruence|].
    assert (Hpj : readPackageJson (path_join [String a' s'; "package.json"]) w1 =
                  MkOut (Ok pj) w1 [EvReadFile (manifestPath (String a' s'))]).
    { unfold readPackageJson. fold (manifestPath (String a' s')). rewrite Hread.
      reflexivity. }
    unfold run. erewrite Hmain.
    2:{ erewrite bind_ok by (rewrite Hfind; reflexivity). rewrite Hfind.
        cbn [res world_after trace]. cbv iota beta.
        erewrite bind_ok by (rewrite Hpj; reflexivity).
        rewrite Hpj. cbn [res world_after trace].
        rewrite (bind_ok _ _ _ _ Hbuild). reflexivity. }
    simpl. rewrite <- ?app_assoc. reflexivity.
Qed.

End DriverExtras.

Lemma discover_spec_witness :
  discover (Env0:=Fixture.env) "/repo/packages" smallWorld =
  MkOut (Ok ["/repo/packages/bar"]) smallWorld
        [EvReaddir "/repo/packages";
         EvExists "/repo/packages/bar/package.json";
         EvExists "/repo/packages/docs/package.json"] ∧
  discover (Env0:=Fixture.env) "/repo/nowhere" smallWorld =
  MkOut (Throw (Fixture.enoent "/repo/nowhere")) smallWorld [EvReaddir "/repo/nowhere"].
Proof.
  split.
  - destruct (discover_spec (Env0:=Fixture.env) "/repo/packages" smallWorld) as [H _].
    apply (H [("README.md", false); ("bar", true); ("docs", true)]). reflexivity.
  - destruct (discover_spec (Env0:=Fixture.env) "/repo/nowhere" smallWorld) as [_ H].
    apply H. reflexivity.
Defined.

Lemma findTarget_spec_witness :
  findTarget (Env0:=Fixture.env) "foo"
             ["/repo/packages/bar"; "/repo/packages/foo"; "/repo/packages/zed"]
             Fixture.w0 =
  MkOut (Ok (Some "/repo/packages/foo")) Fixture.w0
        [EvReadFile "/repo/packages/bar/package.json";
         EvReadFile "/repo/packages/foo/package.json"].
Proof.
  assert (Hpre : Forall (NotTarget (Env0:=Fixture.env) Fixture.w0 "foo")
                        ["/repo/packages/bar"]).
  { repeat constructor. exists Fixture.barJson.
    split; [reflexivity|]. split; [discriminate|]. vm_compute. discriminate. }
  destruct (findTarget_spec (Env0:=Fixture.env) "foo" ["/repo/packages/bar"]
              Fixture.w0 Hpre) as (H & _ & _).
  apply (H "/repo/packages/foo" ["/repo/packages/zed"]).
  exists Fixture.fooJson. split; [reflexivity|]. right. reflexivity.
Defined.

Lemma run_missing_directory_witness :
  res (run (Env0:=Fixture.env) Fixture.noOpts
           {| Fixture.paths := []; Fixture.listings := []; Fixture.manifests := [];
              Fixture.modules := []; Fixture.bad_formats := [] |}) = Ok 1%Z ∧
  res (run (Env0:=Fixture.env) (set_component Fixture.noOpts (Some "card")) smallWorld)
  = Ok 1%Z.
Proof.
  split.
  - edestruct (run_missing_directory (Env0:=Fixture.env) Fixture.noOpts) as [H _];
      [reflexivity|].
    rewrite H; reflexivity.
  - edestruct (run_missing_directory (Env0:=Fixture.env)
                 (set_component Fixture.noOpts (Some "card")) smallWorld) as [_ H];
      [reflexivity|].
    rewrite H; reflexivity.
Defined.

Lemma component_takes_precedence_witness :
  run (Env0:=Fixture.env)
      {| o_pkg := Some "foo"; o_component := Some "card"; o_formats := None;
         o_outRoot := None; o_config := None |} Fixture.w0 =
  run (Env0:=Fixture.env) (set_component Fixture.noOpts (Some "card")) Fixture.w0.
Proof.
  apply (component_takes_precedence (Env0:=Fixture.env)
           (set_component Fixture.noOpts (Some "card")) (Some "foo") Fixture.w0).
  reflexivity.
Defined.

Lemma run_all_success_witness :
  res (run (Env0:=Fixture.env) Fixture.noOpts smallWorld) = Ok 0%Z ∧
  last (trace (run (Env0:=Fixture.env) Fixture.noOpts smallWorld)) =
  Some (EvLog ["All packages built"]).
Proof.
  rewrite (run_all_success (Env0:=Fixture.env) Fixture.noOpts smallWorld config
             ["/repo/packages/bar"]);
    [ | reflexivity | reflexivity | reflexivity | reflexivity | reflexivity
      | vm_compute; reflexivity ].
  split; [reflexivity|]. cbn [trace]. rewrite app_comm_cons, !app_assoc.
  apply last_snoc.
Defined.

Lemma run_single_package_witness :
  res (run (Env0:=Fixture.env) (set_pkg Fixture.noOpts (Some "bar")) smallWorld) = Ok 0%Z ∧
  res (run (Env0:=Fixture.env) (set_pkg Fixture.noOpts (Some "baz")) smallWorld) = Ok 1%Z.
Proof.
  split.
  - edestruct (run_single_package (Env0:=Fixture.env) (set_pkg Fixture.noOpts (Some "bar"))
                 smallWorld config "bar" ["/repo/packages/bar"]) as [_ H];
      [reflexivity | reflexivity | discriminate | reflexivity | reflexivity
       | reflexivity |].
    rewrite (H [] "/repo/packages/bar" [] Fixture.barJson);
      [reflexivity | reflexivity | discriminate | constructor | reflexivity
       | left; reflexivity | vm_compute; reflexivity].
  - edestruct (run_single_package (Env0:=Fixture.env) (set_pkg Fixture.noOpts (Some "baz"))
                 smallWorld config "baz" ["/repo/packages/bar"]) as [H _];
      [reflexivity | reflexivity | discriminate | reflexivity | reflexivity
       | reflexivity |].
    rewrite H; [reflexivity|].
    repeat constructor. exists Fixture.barJson.
    split; [reflexivity|]. split; [discriminate | vm_compute; discriminate].
Defined.

(** ** Configuration loading, continued *)

(** X17.  Once the configuration file is present [loadConfig] never
    fails, whatever the import does, and builds nothing.  When the import
    succeeds it returns, after the probe and the import and nothing else,
    the configuration in which every key the default export of the module
    has holds the exported value and every other key holds the built-in
    one; a key is taken over as a whole, so an exported [vite] or
    [globals] replaces the built-in one and is not merged into it.  A
    module without a default export gives the built-in configuration. *)
Theorem loadConfig_returns_when_file_present {World} `{!Env World}
        (p : string) (w : World) :
  p ≠ EmptyString →
  fs_existsSync w (configAbsPath p) = true →
  let abs := configAbsPath p in
  let w' := (import_default w abs).2 in
  (∀ u, (import_default w abs).1 = inr (Some u) →
     loadConfig (Some p) w =
     MkOut (Ok {| formats := default ["es"; "cjs"; "umd"] (p_formats u);
                  outRoot := default "dist" (p_outRoot u);
                  entryFiles := default ["index.ts"; "src/index.ts"; "src/index.tsx"]
                                        (p_entryFiles u);
                  globals := default (globals config) (p_globals u);
                  external := default (Some config_external) (p_external u);
                  vite := default (vite config) (p_vite u);
                  vue := default (vue config) (p_vue u) |})
           w' [EvExists abs; EvImport abs]) ∧
  ((import_default w abs).1 = inr None →
     loadConfig (Some p) w = MkOut (Ok config) w' [EvExists abs; EvImport abs]) ∧
  (∃ cfg tr, loadConfig (Some p) w = MkOut (Ok cfg) w' tr ∧
             Forall (λ ev, is_build ev = false) tr).
Proof.
  intros Hne Hex. destruct p as [|a s]; [congruence|].
  intros abs w'. fold abs in Hex.
  assert (Hany : loadConfig (Some (String a s)) w =
            match (import_default w abs).1 with
            | inr u => MkOut (Ok (mergeConfig config u)) w' [EvExists abs; EvImport abs]
            | inl e => MkOut (Ok config) w'
                             [EvExists abs; EvImport abs;
                              EvConsoleError ["Failed to load config:"; message e]]
            end).
  { unfold loadConfig, bind, existsSync, try_catch, importDefault.
    fold (configAbsPath (String a s)). fold abs. simpl. rewrite Hex. simpl.
    unfold w'. destruct (import_default w abs) as [[e|u] w2]; reflexivity. }
  split; [|split].
  - intros u Hu. rewrite Hany, Hu. reflexivity.
  - intros Hu. rewrite Hany, Hu. reflexivity.
  - rewrite Hany. destruct ((import_default w abs).1) as [e|u];
      eexists; eexists; (split; [reflexivity | repeat constructor]).
Qed.

Lemma loadConfig_returns_when_file_present_witness :
  loadConfig (Env0:=Fixture.env) (Some "lib.config.ts") configWorld =
  MkOut (Ok {| formats := ["es"]; outRoot := "lib";
               entryFiles := ["index.ts"; "src/index.ts"; "src/index.tsx"];
               globals := [("vue", "Vue")];
               external := Some config_external;
               vite := vite config; vue := vue config |})
        configWorld [EvExists "/repo/lib.config.ts"; EvImport "/repo/lib.config.ts"].
Proof.
  destruct (loadConfig_returns_when_file_present (Env0:=Fixture.env) "lib.config.ts"
              configWorld) as (H & _); [discriminate | reflexivity |].
  apply (H libConfig). reflexivity.
Defined.
